(** * Synthesis script of the QuickLogic plugin (synth_quicklogic.cc)

    A shallow embedding of [SynthQuickLogicPass]: the flag parser and the
    precondition checks of [execute], and the checkpointed command script
    of [script].  Every transformation pass is an opaque named command;
    the model records the command strings handed to the pass dispatcher,
    in the order the script issues them. *)

From Stdlib Require Import String List ZArith Bool Lia DecimalString Ascii Sorted.
From stdpp Require Import gmap strings.
Import ListNotations.
Local Open Scope string_scope.
Local Open Scope list_scope.

(** ** C++ string helpers *)

(** [operator==] and [operator!=] on [std::string]. *)
Infix "==" := String.eqb (at level 70, no associativity).
Notation "a != b" := (negb (String.eqb a b)) (at level 70, no associativity).

Definition empty (s : string) : bool := s == "".

(** The line feed written [\n] in the source's literals. *)
Definition nl : string := String (ascii_of_nat 10) "".

(** [stringf]'s [%d] on an [int] and [%zu] on a [size_t]. *)
Definition fmt_d (z : Z) : string := NilZero.string_of_int (Z.to_int z).
Definition fmt_zu (n : N) : string := NilZero.string_of_uint (N.to_uint n).

(** [std::string::find(char)]: position of the first occurrence, [None]
    standing for [npos]. *)
Fixpoint find (c : ascii) (s : string) : option nat :=
  match s with
  | EmptyString => None
  | String a s' => if Ascii.eqb a c then Some 0 else option_map S (find c s')
  end.

(** [substr(0, n)] and the one-argument [substr(pos)]. *)
Fixpoint substr_to (n : nat) (s : string) : string :=
  match n, s with
  | S n', String a s' => String a (substr_to n' s')
  | _, _ => EmptyString
  end.

Fixpoint substr_from (pos : nat) (s : string) : string :=
  match pos, s with
  | S pos', String _ s' => substr_from pos' s'
  | _, _ => s
  end.

(** ** The pass object

    The members of [SynthQuickLogicPass] (source lines 106-114) together
    with the members it inherits from [ScriptPass] that the script reads. *)
Record SynthQuickLogicPass := {
  help_mode : bool;
  active_run_from : string;
  active_run_to : string;
  top_opt : string;
  edif_file : string;
  blif_file : string;
  family : string;
  currmodule : string;
  verilog_file : string;
  use_dsp_cfg_params : string;
  lib_path : string;
  nodsp : bool;
  inferAdder : bool;
  inferBram : bool;
  bramTypes : bool;
  abcOpt : bool;
  abc9 : bool;
  noffmap : bool;
  nosdff : bool
}.

(** Member assignments.  [currmodule] has no setter: the source assigns it
    in [clear_flags] only. *)
Definition set_help_mode (v : bool) (p : SynthQuickLogicPass) : SynthQuickLogicPass :=
  {| help_mode := v; active_run_from := active_run_from p; active_run_to := active_run_to
     p; top_opt := top_opt p; edif_file := edif_file p; blif_file := blif_file p; family
     := family p; currmodule := currmodule p; verilog_file := verilog_file p;
     use_dsp_cfg_params := use_dsp_cfg_params p; lib_path := lib_path p; nodsp := nodsp p;
     inferAdder := inferAdder p; inferBram := inferBram p; bramTypes := bramTypes p;
     abcOpt := abcOpt p; abc9 := abc9 p; noffmap := noffmap p; nosdff := nosdff p |}.

Definition set_active_run_from (v : string) (p : SynthQuickLogicPass) : SynthQuickLogicPass :=
  {| help_mode := help_mode p; active_run_from := v; active_run_to := active_run_to p;
     top_opt := top_opt p; edif_file := edif_file p; blif_file := blif_file p; family :=
     family p; currmodule := currmodule p; verilog_file := verilog_file p;
     use_dsp_cfg_params := use_dsp_cfg_params p; lib_path := lib_path p; nodsp := nodsp p;
     inferAdder := inferAdder p; inferBram := inferBram p; bramTypes := bramTypes p;
     abcOpt := abcOpt p; abc9 := abc9 p; noffmap := noffmap p; nosdff := nosdff p |}.

Definition set_active_run_to (v : string) (p : SynthQuickLogicPass) : SynthQuickLogicPass :=
  {| help_mode := help_mode p; active_run_from := active_run_from p; active_run_to := v;
     top_opt := top_opt p; edif_file := edif_file p; blif_file := blif_file p; family :=
     family p; currmodule := currmodule p; verilog_file := verilog_file p;
     use_dsp_cfg_params := use_dsp_cfg_params p; lib_path := lib_path p; nodsp := nodsp p;
     inferAdder := inferAdder p; inferBram := inferBram p; bramTypes := bramTypes p;
     abcOpt := abcOpt p; abc9 := abc9 p; noffmap := noffmap p; nosdff := nosdff p |}.

Definition set_top_opt (v : string) (p : SynthQuickLogicPass) : SynthQuickLogicPass :=
  {| help_mode := help_mode p; active_run_from := active_run_from p; active_run_to :=
     active_run_to p; top_opt := v; edif_file := edif_file p; blif_file := blif_file p;
     family := family p; currmodule := currmodule p; verilog_file := verilog_file p;
     use_dsp_cfg_params := use_dsp_cfg_params p; lib_path := lib_path p; nodsp := nodsp p;
     inferAdder := inferAdder p; inferBram := inferBram p; bramTypes := bramTypes p;
     abcOpt := abcOpt p; abc9 := abc9 p; noffmap := noffmap p; nosdff := nosdff p |}.

Definition set_edif_file (v : string) (p : SynthQuickLogicPass) : SynthQuickLogicPass :=
  {| help_mode := help_mode p; active_run_from := active_run_from p; active_run_to :=
     active_run_to p; top_opt := top_opt p; edif_file := v; blif_file := blif_file p;
     family := family p; currmodule := currmodule p; verilog_file := verilog_file p;
     use_dsp_cfg_params := use_dsp_cfg_params p; lib_path := lib_path p; nodsp := nodsp p;
     inferAdder := inferAdder p; inferBram := inferBram p; bramTypes := bramTypes p;
     abcOpt := abcOpt p; abc9 := abc9 p; noffmap := noffmap p; nosdff := nosdff p |}.

Definition set_blif_file (v : string) (p : SynthQuickLogicPass) : SynthQuickLogicPass :=
  {| help_mode := help_mode p; active_run_from := active_run_from p; active_run_to :=
     active_run_to p; top_opt := top_opt p; edif_file := edif_file p; blif_file := v;
     family := family p; currmodule := currmodule p; verilog_file := verilog_file p;
     use_dsp_cfg_params := use_dsp_cfg_params p; lib_path := lib_path p; nodsp := nodsp p;
     inferAdder := inferAdder p; inferBram := inferBram p; bramTypes := bramTypes p;
     abcOpt := abcOpt p; abc9 := abc9 p; noffmap := noffmap p; nosdff := nosdff p |}.

Definition set_family (v : string) (p : SynthQuickLogicPass) : SynthQuickLogicPass :=
  {| help_mode := help_mode p; active_run_from := active_run_from p; active_run_to :=
     active_run_to p; top_opt := top_opt p; edif_file := edif_file p; blif_file :=
     blif_file p; family := v; currmodule := currmodule p; verilog_file := verilog_file p;
     use_dsp_cfg_params := use_dsp_cfg_params p; lib_path := lib_path p; nodsp := nodsp p;
     inferAdder := inferAdder p; inferBram := inferBram p; bramTypes := bramTypes p;
     abcOpt := abcOpt p; abc9 := abc9 p; noffmap := noffmap p; nosdff := nosdff p |}.

Definition set_verilog_file (v : string) (p : SynthQuickLogicPass) : SynthQuickLogicPass :=
  {| help_mode := help_mode p; active_run_from := active_run_from p; active_run_to :=
     active_run_to p; top_opt := top_opt p; edif_file := edif_file p; blif_file :=
     blif_file p; family := family p; currmodule := currmodule p; verilog_file := v;
     use_dsp_cfg_params := use_dsp_cfg_params p; lib_path := lib_path p; nodsp := nodsp p;
     inferAdder := inferAdder p; inferBram := inferBram p; bramTypes := bramTypes p;
     abcOpt := abcOpt p; abc9 := abc9 p; noffmap := noffmap p; nosdff := nosdff p |}.

Definition set_use_dsp_cfg_params (v : string) (p : SynthQuickLogicPass) : SynthQuickLogicPass :=
  {| help_mode := help_mode p; active_run_from := active_run_from p; active_run_to :=
     active_run_to p; top_opt := top_opt p; edif_file := edif_file p; blif_file :=
     blif_file p; family := family p; currmodule := currmodule p; verilog_file :=
     verilog_file p; use_dsp_cfg_params := v; lib_path := lib_path p; nodsp := nodsp p;
     inferAdder := inferAdder p; inferBram := inferBram p; bramTypes := bramTypes p;
     abcOpt := abcOpt p; abc9 := abc9 p; noffmap := noffmap p; nosdff := nosdff p |}.

Definition set_lib_path (v : string) (p : SynthQuickLogicPass) : SynthQuickLogicPass :=
  {| help_mode := help_mode p; active_run_from := active_run_from p; active_run_to :=
     active_run_to p; top_opt := top_opt p; edif_file := edif_file p; blif_file :=
     blif_file p; family := family p; currmodule := currmodule p; verilog_file :=
     verilog_file p; use_dsp_cfg_params := use_dsp_cfg_params p; lib_path := v; nodsp :=
     nodsp p; inferAdder := inferAdder p; inferBram := inferBram p; bramTypes := bramTypes
     p; abcOpt := abcOpt p; abc9 := abc9 p; noffmap := noffmap p; nosdff := nosdff p |}.

Definition set_nodsp (v : bool) (p : SynthQuickLogicPass) : SynthQuickLogicPass :=
  {| help_mode := help_mode p; active_run_from := active_run_from p; active_run_to :=
     active_run_to p; top_opt := top_opt p; edif_file := edif_file p; blif_file :=
     blif_file p; family := family p; currmodule := currmodule p; verilog_file :=
     verilog_file p; use_dsp_cfg_params := use_dsp_cfg_params p; lib_path := lib_path p;
     nodsp := v; inferAdder := inferAdder p; inferBram := inferBram p; bramTypes :=
     bramTypes p; abcOpt := abcOpt p; abc9 := abc9 p; noffmap := noffmap p; nosdff :=
     nosdff p |}.

Definition set_inferAdder (v : bool) (p : SynthQuickLogicPass) : SynthQuickLogicPass :=
  {| help_mode := help_mode p; active_run_from := active_run_from p; active_run_to :=
     active_run_to p; top_opt := top_opt p; edif_file := edif_file p; blif_file :=
     blif_file p; family := family p; currmodule := currmodule p; verilog_file :=
     verilog_file p; use_dsp_cfg_params := use_dsp_cfg_params p; lib_path := lib_path p;
     nodsp := nodsp p; inferAdder := v; inferBram := inferBram p; bramTypes := bramTypes
     p; abcOpt := abcOpt p; abc9 := abc9 p; noffmap := noffmap p; nosdff := nosdff p |}.

Definition set_inferBram (v : bool) (p : SynthQuickLogicPass) : SynthQuickLogicPass :=
  {| help_mode := help_mode p; active_run_from := active_run_from p; active_run_to :=
     active_run_to p; top_opt := top_opt p; edif_file := edif_file p; blif_file :=
     blif_file p; family := family p; currmodule := currmodule p; verilog_file :=
     verilog_file p; use_dsp_cfg_params := use_dsp_cfg_params p; lib_path := lib_path p;
     nodsp := nodsp p; inferAdder := inferAdder p; inferBram := v; bramTypes := bramTypes
     p; abcOpt := abcOpt p; abc9 := abc9 p; noffmap := noffmap p; nosdff := nosdff p |}.

Definition set_bramTypes (v : bool) (p : SynthQuickLogicPass) : SynthQuickLogicPass :=
  {| help_mode := help_mode p; active_run_from := active_run_from p; active_run_to :=
     active_run_to p; top_opt := top_opt p; edif_file := edif_file p; blif_file :=
     blif_file p; family := family p; currmodule := currmodule p; verilog_file :=
     verilog_file p; use_dsp_cfg_params := use_dsp_cfg_params p; lib_path := lib_path p;
     nodsp := nodsp p; inferAdder := inferAdder p; inferBram := inferBram p; bramTypes :=
     v; abcOpt := abcOpt p; abc9 := abc9 p; noffmap := noffmap p; nosdff := nosdff p |}.

Definition set_abcOpt (v : bool) (p : SynthQuickLogicPass) : SynthQuickLogicPass :=
  {| help_mode := help_mode p; active_run_from := active_run_from p; active_run_to :=
     active_run_to p; top_opt := top_opt p; edif_file := edif_file p; blif_file :=
     blif_file p; family := family p; currmodule := currmodule p; verilog_file :=
     verilog_file p; use_dsp_cfg_params := use_dsp_cfg_params p; lib_path := lib_path p;
     nodsp := nodsp p; inferAdder := inferAdder p; inferBram := inferBram p; bramTypes :=
     bramTypes p; abcOpt := v; abc9 := abc9 p; noffmap := noffmap p; nosdff := nosdff p |}.

Definition set_abc9 (v : bool) (p : SynthQuickLogicPass) : SynthQuickLogicPass :=
  {| help_mode := help_mode p; active_run_from := active_run_from p; active_run_to :=
     active_run_to p; top_opt := top_opt p; edif_file := edif_file p; blif_file :=
     blif_file p; family := family p; currmodule := currmodule p; verilog_file :=
     verilog_file p; use_dsp_cfg_params := use_dsp_cfg_params p; lib_path := lib_path p;
     nodsp := nodsp p; inferAdder := inferAdder p; inferBram := inferBram p; bramTypes :=
     bramTypes p; abcOpt := abcOpt p; abc9 := v; noffmap := noffmap p; nosdff := nosdff p
     |}.

Definition set_noffmap (v : bool) (p : SynthQuickLogicPass) : SynthQuickLogicPass :=
  {| help_mode := help_mode p; active_run_from := active_run_from p; active_run_to :=
     active_run_to p; top_opt := top_opt p; edif_file := edif_file p; blif_file :=
     blif_file p; family := family p; currmodule := currmodule p; verilog_file :=
     verilog_file p; use_dsp_cfg_params := use_dsp_cfg_params p; lib_path := lib_path p;
     nodsp := nodsp p; inferAdder := inferAdder p; inferBram := inferBram p; bramTypes :=
     bramTypes p; abcOpt := abcOpt p; abc9 := abc9 p; noffmap := v; nosdff := nosdff p |}.

Definition set_nosdff (v : bool) (p : SynthQuickLogicPass) : SynthQuickLogicPass :=
  {| help_mode := help_mode p; active_run_from := active_run_from p; active_run_to :=
     active_run_to p; top_opt := top_opt p; edif_file := edif_file p; blif_file :=
     blif_file p; family := family p; currmodule := currmodule p; verilog_file :=
     verilog_file p; use_dsp_cfg_params := use_dsp_cfg_params p; lib_path := lib_path p;
     nodsp := nodsp p; inferAdder := inferAdder p; inferBram := inferBram p; bramTypes :=
     bramTypes p; abcOpt := abcOpt p; abc9 := abc9 p; noffmap := noffmap p; nosdff := v |}.

(** [clear_flags] (source lines 116-134). *)
Definition clear_flags (p : SynthQuickLogicPass) : SynthQuickLogicPass :=
  {| help_mode := help_mode p;
     active_run_from := active_run_from p;
     active_run_to := active_run_to p;
     top_opt := "-auto-top";
     edif_file := "";
     blif_file := "";
     family := "qlf_k4n8";
     currmodule := "";
     verilog_file := "";
     use_dsp_cfg_params := "";
     lib_path := "+/quicklogic/";
     nodsp := false;
     inferAdder := true;
     inferBram := true;
     bramTypes := false;
     abcOpt := true;
     abc9 := true;
     noffmap := false;
     nosdff := false |}.

(** ** The script engine

    What the script does is a sequence of events: a command handed to the
    pass dispatcher in a real run, or a line of the generated help text in
    preview mode. *)
Inductive Event :=
| Invoke (cmd : string)
| HelpLabel (label info : string)
| HelpCommand (cmd info : string).

(** The commands issued against the design, in order. *)
Fixpoint invoked (evs : list Event) : list string :=
  match evs with
  | [] => []
  | Invoke cmd :: evs' => cmd :: invoked evs'
  | _ :: evs' => invoked evs'
  end.

(** The script runs in a writer monad over events. *)
Definition W (A : Type) : Type := (A * list Event)%type.

Definition ret {A} (a : A) : W A := (a, []).

Definition bind {A B} (m : W A) (k : A -> W B) : W B :=
  let r := k (fst m) in (fst r, snd m ++ snd r).

Definition value {A} (m : W A) : A := fst m.
Definition events {A} (m : W A) : list Event := snd m.

Declare Scope script_scope.
Delimit Scope script_scope with script.
Notation "x <- m ;; k" := (bind m (fun x => k))
  (at level 100, m at next level, right associativity) : script_scope.
Notation "m ;; k" := (bind m (fun _ => k))
  (at level 100, right associativity) : script_scope.
Local Open Scope script_scope.

(** [if (b) { body }] for a body without a result. *)
Abbreviation when b body := (if b then body else ret tt) (only parsing).

(** A range-based [for] over an initializer list. *)
Fixpoint for_each {A} (l : list A) (body : A -> W unit) : W unit :=
  match l with
  | [] => ret tt
  | x :: l' => body x ;; for_each l' body
  end.

(** The checkpoints of the script, in the order the script visits them. *)
Definition checkpoints : list string :=
  ["begin"; "prepare"; "map_dsp"; "coarse"; "map_bram"; "map_ffram";
   "map_gates"; "map_ffs"; "map_luts"; "map_cells"; "check"; "iomap";
   "finalize"; "blif"; "edif"; "verilog"].

(** Position of a name in a list of names. *)
Fixpoint position (l : list string) (name : string) : option nat :=
  match l with
  | [] => None
  | x :: l' => if x == name then Some 0 else option_map S (position l' name)
  end.

(** Modelled from the spec: the resume window of [ScriptPass], whose
    implementation is not part of the plugin's sources.  The window is an
    inclusive range of checkpoints; an empty end stands for the first,
    respectively the last checkpoint.  An end that names no checkpoint
    leaves the window empty. *)
Definition window_lo (run_from : string) : option nat :=
  if empty run_from then Some 0 else position checkpoints run_from.

Definition window_hi (run_to : string) : option nat :=
  if empty run_to then Some (length checkpoints - 1) else position checkpoints run_to.

(** Modelled from the spec: membership of a checkpoint in the resume
    window, both ends included. *)
Definition in_window (run_from run_to label : string) : bool :=
  match window_lo run_from, window_hi run_to, position checkpoints label with
  | Some lo, Some hi, Some i => Nat.leb lo i && Nat.leb i hi
  | _, _, _ => false
  end.

(** Modelled from the spec: [ScriptPass::check_label].  In preview mode
    every checkpoint is visited and its label goes to the help text; in a
    real run the checkpoint is tested against the resume window. *)
Definition check_label (self : SynthQuickLogicPass) (label info : string) : W bool :=
  if help_mode self then (true, [HelpLabel label info])
  else ret (in_window (active_run_from self) (active_run_to self) label).

(** Modelled from the spec: [ScriptPass::run] with its defaulted [info]
    argument.  A real run hands the command to the pass dispatcher; preview
    mode writes the command and its note to the help text instead. *)
Definition run_info (self : SynthQuickLogicPass) (cmd info : string) : W unit :=
  if help_mode self then (tt, [HelpCommand cmd info]) else (tt, [Invoke cmd]).

Definition run (self : SynthQuickLogicPass) (cmd : string) : W unit :=
  run_info self cmd "".

(** ** The script (source lines 243-618)

    Each definition below is the body of one checkpoint's [if] block. *)

(** Checkpoint [begin] (lines 250-268). *)
Definition body_begin (self : SynthQuickLogicPass) : W unit :=
  let family_path := " " +:+ lib_path self +:+ family self in
  let readVelArgs := family_path +:+ "/cells_sim.v" in
  let readVelArgs :=
    if family self == "qlf_k6n10f" then
      let readVelArgs := readVelArgs +:+ family_path +:+ "/dsp_sim.v" in
      let readVelArgs := readVelArgs +:+ family_path +:+ "/brams_sim.v" in
      if bramTypes self then readVelArgs +:+ family_path +:+ "/bram_types_sim.v"
      else readVelArgs
    else readVelArgs in
  run self ("read_verilog -lib -specify -nomem2reg " +:+ lib_path self +:+
            "common/cells_sim.v" +:+ readVelArgs) ;;
  run self ("hierarchy -check " +:+
            (if help_mode self then "-top <top>" else top_opt self)).

(** Checkpoint [prepare] (lines 270-295).  The block appends to the local
    [noDFFArgs] of [script]; the body returns the local's new value. *)
Definition body_prepare (self : SynthQuickLogicPass) (noDFFArgs : string) : W string :=
  run self "proc" ;;
  run self "flatten" ;;
  when (help_mode self || (family self == "pp3"))
    (run_info self "tribuf -logic" "                   (for pp3)") ;;
  run self "deminout" ;;
  run self "opt_expr" ;;
  run self "opt_clean" ;;
  let noDFFArgs := if nosdff self then noDFFArgs +:+ " -nosdff" else noDFFArgs in
  let noDFFArgs :=
    if family self == "qlf_k4n8" then noDFFArgs +:+ " -nodffe" else noDFFArgs in
  run self "check" ;;
  run self "opt -nodffe -nosdff" ;;
  run self "fsm" ;;
  run self ("opt" +:+ noDFFArgs) ;;
  run self "wreduce" ;;
  run self "peepopt" ;;
  run self "opt_clean" ;;
  run self "share" ;;
  ret noDFFArgs.

(** The multiplier rules of [qlf_k6n10f] (lines 318-329). *)
Record DspParams := {
  a_maxwidth : N;
  b_maxwidth : N;
  a_minwidth : N;
  b_minwidth : N;
  type : string
}.

Definition dsp_rules : list DspParams :=
  [ {| a_maxwidth := 20; b_maxwidth := 18; a_minwidth := 11; b_minwidth := 10;
       type := "$__QL_MUL20X18" |};
    {| a_maxwidth := 10; b_maxwidth := 9; a_minwidth := 4; b_minwidth := 4;
       type := "$__QL_MUL10X9" |} ].

(** The [qlf_k6n10] branch of [map_dsp] (lines 298-315). *)
Definition map_dsp_k6n10 (self : SynthQuickLogicPass) : W unit :=
  when (help_mode self || (family self == "qlf_k6n10"))
    (when (help_mode self || negb (nodsp self))
      (run_info self "memory_dff" "                      (for qlf_k6n10)" ;;
       run_info self "wreduce t:$mul" "                  (for qlf_k6n10)" ;;
       run_info self ("techmap -map +/mul2dsp.v -map " +:+ lib_path self +:+ family self +:+
                      "/dsp_map.v -D DSP_A_MAXWIDTH=16 -D DSP_B_MAXWIDTH=16 " +:+
                      "-D DSP_A_MINWIDTH=2 -D DSP_B_MINWIDTH=2 -D DSP_Y_MINWIDTH=11 " +:+
                      "-D DSP_NAME=$__MUL16X16")
                "    (for qlf_k6n10)" ;;
       run_info self "select a:mul2dsp" "                (for qlf_k6n10)" ;;
       run_info self "setattr -unset mul2dsp" "          (for qlf_k6n10)" ;;
       run_info self "opt_expr -fine" "                  (for qlf_k6n10)" ;;
       run_info self "wreduce" "                         (for qlf_k6n10)" ;;
       run_info self "select -clear" "                   (for qlf_k6n10)" ;;
       run_info self "ql_dsp" "                          (for qlf_k6n10)" ;;
       run_info self "chtype -set $mul t:$__soft_mul" "  (for qlf_k6n10)")).

(** The [qlf_k6n10f] branch of [map_dsp] (lines 316-365). *)
Definition map_dsp_k6n10f (self : SynthQuickLogicPass) : W unit :=
  when (help_mode self || (family self == "qlf_k6n10f"))
    (if help_mode self then
       run_info self "wreduce t:$mul" "                  (for qlf_k6n10f)" ;;
       run_info self ("ql_dsp_macc" +:+ use_dsp_cfg_params self) "(for qlf_k6n10f)" ;;
       run_info self "techmap -map +/mul2dsp.v [...]" "  (for qlf_k6n10f)" ;;
       run_info self "chtype -set $mul t:$__soft_mul" "  (for qlf_k6n10f)" ;;
       run_info self ("techmap -map " +:+ lib_path self +:+ family self +:+ "/dsp_map.v")
                "(for qlf_k6n10f)" ;;
       (if empty (use_dsp_cfg_params self) then
          run_info self ("techmap -map " +:+ lib_path self +:+ family self +:+
                         "/dsp_map.v -D USE_DSP_CFG_PARAMS=0") "(for qlf_k6n10f)"
        else
          run_info self ("techmap -map " +:+ lib_path self +:+ family self +:+
                         "/dsp_map.v -D USE_DSP_CFG_PARAMS=1") "(for qlf_k6n10f)") ;;
       run_info self "ql_dsp_simd" "                     (for qlf_k6n10f)" ;;
       run_info self ("techmap -map " +:+ lib_path self +:+ family self +:+
                      "/dsp_final_map.v") "(for qlf_k6n10f)" ;;
       run_info self "ql_dsp_io_regs" "                  (for qlf_k6n10f)"
     else
       when (negb (nodsp self))
         (run self "wreduce t:$mul" ;;
          run self ("ql_dsp_macc" +:+ use_dsp_cfg_params self) ;;
          for_each dsp_rules (fun rule =>
            run self (
              "techmap -map +/mul2dsp.v -D DSP_A_MAXWIDTH=" +:+
              fmt_zu (a_maxwidth rule) +:+ " -D DSP_B_MAXWIDTH=" +:+
              fmt_zu (b_maxwidth rule) +:+ " -D DSP_A_MINWIDTH=" +:+
              fmt_zu (a_minwidth rule) +:+ " -D DSP_B_MINWIDTH=" +:+
              fmt_zu (b_minwidth rule) +:+ " -D DSP_NAME=" +:+ type rule) ;;
            run self "chtype -set $mul t:$__soft_mul") ;;
          (if empty (use_dsp_cfg_params self) then
             run self ("techmap -map " +:+ lib_path self +:+ family self +:+
                       "/dsp_map.v -D USE_DSP_CFG_PARAMS=0")
           else
             run self ("techmap -map " +:+ lib_path self +:+ family self +:+
                       "/dsp_map.v -D USE_DSP_CFG_PARAMS=1")) ;;
          run self "ql_dsp_simd" ;;
          run self ("techmap -map " +:+ lib_path self +:+ family self +:+ "/dsp_final_map.v") ;;
          run self "ql_dsp_io_regs")).

(** Checkpoint [map_dsp]: what the block at lines 297-366 runs. *)
Definition body_map_dsp (self : SynthQuickLogicPass) : W unit :=
  map_dsp_k6n10 self ;;
  map_dsp_k6n10f self.

(** Checkpoint [coarse] (lines 368-377). *)
Definition body_coarse (self : SynthQuickLogicPass) (noDFFArgs : string) : W unit :=
  run self "techmap -map +/cmp2lut.v -D LUT_WIDTH=4" ;;
  run self "opt_expr" ;;
  run self "opt_clean" ;;
  run self "alumacc" ;;
  run self "pmuxtree" ;;
  run self ("opt" +:+ noDFFArgs) ;;
  run self "memory -nomap" ;;
  run self "opt_clean".

(** The series of [chtype] passes under [-bram_types] (lines 401-457). *)
Definition bram_types_chtypes (self : SynthQuickLogicPass) : W unit :=
  for_each [1; 2; 4; 9; 18; 36]%Z (fun a_dwidth =>
    for_each [1; 2; 4; 9; 18; 36]%Z (fun b_dwidth =>
      let cmd :=
        "chtype -set TDP36K_BRAM_A_X" +:+ fmt_d a_dwidth +:+ "_B_X" +:+
        fmt_d b_dwidth +:+
        "_nonsplit t:TDP36K a:is_inferred=0 %i a:is_fifo=0 %i a:port_a_dwidth=" +:+
        fmt_d a_dwidth +:+ " %i a:port_b_dwidth=" +:+ fmt_d b_dwidth +:+ " %i" in
      run self cmd ;;
      let cmd1 :=
        "chtype -set TDP36K_FIFO_ASYNC_A_X" +:+ fmt_d a_dwidth +:+ "_B_X" +:+
        fmt_d b_dwidth +:+
        "_nonsplit t:TDP36K a:is_inferred=0 %i a:is_fifo=1 %i a:sync_fifo=0 %i a:port_a_dwidth=" +:+
        fmt_d a_dwidth +:+ " %i a:port_b_dwidth=" +:+ fmt_d b_dwidth +:+ " %i" in
      run self cmd1 ;;
      let cmd2 :=
        "chtype -set TDP36K_FIFO_SYNC_A_X" +:+ fmt_d a_dwidth +:+ "_B_X" +:+
        fmt_d b_dwidth +:+
        "_nonsplit t:TDP36K a:is_inferred=0 %i a:is_fifo=1 %i a:sync_fifo=1 %i a:port_a_dwidth=" +:+
        fmt_d a_dwidth +:+ " %i a:port_b_dwidth=" +:+ fmt_d b_dwidth +:+ " %i" in
      run self cmd2)) ;;
  for_each [1; 2; 4; 9; 18]%Z (fun a1_dwidth =>
    for_each [1; 2; 4; 9; 18]%Z (fun b1_dwidth =>
      for_each [1; 2; 4; 9; 18]%Z (fun a2_dwidth =>
        for_each [1; 2; 4; 9; 18]%Z (fun b2_dwidth =>
          let cmd :=
            "chtype -set TDP36K_BRAM_A1_X" +:+ fmt_d a1_dwidth +:+ "_B1_X" +:+
            fmt_d b1_dwidth +:+ "_A2_X" +:+ fmt_d a2_dwidth +:+ "_B2_X" +:+
            fmt_d b2_dwidth +:+
            "_split t:TDP36K a:is_inferred=0 %i a:is_split=1 %i a:is_fifo=0 %i a:port_a1_dwidth=" +:+
            fmt_d a1_dwidth +:+ " %i a:port_b1_dwidth=" +:+ fmt_d b1_dwidth +:+
            " %i a:port_a2_dwidth=" +:+ fmt_d a2_dwidth +:+ " %i a:port_b2_dwidth=" +:+
            fmt_d b2_dwidth +:+ " %i" in
          run self cmd ;;
          let cmd1 :=
            "chtype -set TDP36K_FIFO_ASYNC_A1_X" +:+ fmt_d a1_dwidth +:+ "_B1_X" +:+
            fmt_d b1_dwidth +:+ "_A2_X" +:+ fmt_d a2_dwidth +:+ "_B2_X" +:+
            fmt_d b2_dwidth +:+
            "_split t:TDP36K a:is_inferred=0 %i a:is_split=1 %i a:is_fifo=1 %i a:sync_fifo=0 %i a:port_a1_dwidth=" +:+
            fmt_d a1_dwidth +:+ " %i a:port_b1_dwidth=" +:+ fmt_d b1_dwidth +:+
            " %i a:port_a2_dwidth=" +:+ fmt_d a2_dwidth +:+ " %i a:port_b2_dwidth=" +:+
            fmt_d b2_dwidth +:+ " %i" in
          run self cmd1 ;;
          let cmd2 :=
            "chtype -set TDP36K_FIFO_SYNC_A1_X" +:+ fmt_d a1_dwidth +:+ "_B1_X" +:+
            fmt_d b1_dwidth +:+ "_A2_X" +:+ fmt_d a2_dwidth +:+ "_B2_X" +:+
            fmt_d b2_dwidth +:+
            "_split t:TDP36K a:is_inferred=0 %i a:is_split=1 %i a:is_fifo=1 %i a:sync_fifo=1 %i a:port_a1_dwidth=" +:+
            fmt_d a1_dwidth +:+ " %i a:port_b1_dwidth=" +:+ fmt_d b1_dwidth +:+
            " %i a:port_a2_dwidth=" +:+ fmt_d a2_dwidth +:+ " %i a:port_b2_dwidth=" +:+
            fmt_d b2_dwidth +:+ " %i" in
          run self cmd2)))) ;;
  for_each [1; 2; 4; 9; 18; 36]%Z (fun a_width =>
    for_each [1; 2; 4; 9; 18; 36]%Z (fun b_width =>
      let cmd :=
        "chtype -set TDP36K_BRAM_A_X" +:+ fmt_d a_width +:+ "_B_X" +:+ fmt_d b_width +:+
        "_nonsplit t:TDP36K a:is_inferred=1 %i a:port_a_width=" +:+ fmt_d a_width +:+
        " %i a:port_b_width=" +:+ fmt_d b_width +:+ " %i" in
      run self cmd)) ;;
  for_each [1; 2; 4; 9; 18]%Z (fun a1_width =>
    for_each [1; 2; 4; 9; 18]%Z (fun b1_width =>
      for_each [1; 2; 4; 9; 18]%Z (fun a2_width =>
        for_each [1; 2; 4; 9; 18]%Z (fun b2_width =>
          let cmd :=
            "chtype -set TDP36K_BRAM_A1_X" +:+ fmt_d a1_width +:+ "_B1_X" +:+
            fmt_d b1_width +:+ "_A2_X" +:+ fmt_d a2_width +:+ "_B2_X" +:+
            fmt_d b2_width +:+ "_split t:TDP36K a:is_inferred=1 %i a:port_a1_width=" +:+
            fmt_d a1_width +:+ " %i a:port_b1_width=" +:+ fmt_d b1_width +:+
            " %i a:port_a2_width=" +:+ fmt_d a2_width +:+ " %i a:port_b2_width=" +:+
            fmt_d b2_width +:+ " %i" in
          run self cmd)))).

(** Checkpoint [map_bram] (lines 380-457). *)
Definition body_map_bram (self : SynthQuickLogicPass) : W unit :=
  when (help_mode self || (family self == "qlf_k6n10f"))
    (run_info self ("memory_libmap -lib " +:+ lib_path self +:+ family self +:+
                    "/libmap_brams.txt") "(for qlf_k6n10f)" ;;
     run_info self "ql_bram_merge" "(for qlf_k6n10f)" ;;
     run_info self ("techmap -map " +:+ lib_path self +:+ family self +:+
                    "/libmap_brams_map.v") "(for qlf_k6n10f)") ;;
  when (help_mode self || (family self == "qlf_k6n10") || (family self == "pp3"))
    (run_info self ("memory_bram -rules " +:+ lib_path self +:+ family self +:+ "/brams.txt")
              "(for pp3, qlf_k6n10)") ;;
  when (help_mode self || (family self == "pp3"))
    (run_info self "pp3_braminit" "(for pp3)") ;;
  run self ("techmap -autoproc -map " +:+ lib_path self +:+ family self +:+ "/brams_map.v") ;;
  when (family self == "qlf_k6n10f")
    (run self ("techmap -map " +:+ lib_path self +:+ family self +:+ "/brams_final_map.v")) ;;
  when (help_mode self)
    (run_info self "chtype -set TDP36K_<mode> t:TDP36K a:<mode>" "(if -bram_types)") ;;
  when (bramTypes self) (bram_types_chtypes self).

(** Checkpoint [map_ffram] (lines 460-466). *)
Definition body_map_ffram (self : SynthQuickLogicPass) (noDFFArgs : string) : W unit :=
  run self ("opt -fast -mux_undef -undriven -fine" +:+ noDFFArgs) ;;
  run self ("memory_map -iattr -attr !ram_block -attr !rom_block -attr logic_block " +:+
            "-attr syn_ramstyle=auto -attr syn_ramstyle=registers " +:+
            "-attr syn_romstyle=auto -attr syn_romstyle=logic") ;;
  run self ("opt -undriven -fine" +:+ noDFFArgs).

(** Checkpoint [map_gates] (lines 468-482). *)
Definition body_map_gates (self : SynthQuickLogicPass) (noDFFArgs : string) : W unit :=
  (if help_mode self ||
      (inferAdder self && ((family self == "qlf_k4n8") || (family self == "qlf_k6n10") ||
                           (family self == "qlf_k6n10f")))
   then run_info self ("techmap -map +/techmap.v -map " +:+ lib_path self +:+ family self +:+
                       "/arith_map.v") "(unless -no_adder)"
   else run self "techmap") ;;
  run self ("opt -fast" +:+ noDFFArgs) ;;
  when (help_mode self || (family self == "pp3"))
    (run_info self "muxcover -mux8 -mux4" "(for pp3)") ;;
  run self "opt_expr" ;;
  run self "opt_merge" ;;
  run self "opt_clean" ;;
  run self ("opt" +:+ noDFFArgs).

(** Checkpoint [map_ffs] (lines 484-524). *)
Definition body_map_ffs (self : SynthQuickLogicPass) (noDFFArgs : string) : W unit :=
  run self "opt_expr" ;;
  when (help_mode self)
    (run_info self "shregmap -minlen <min> -maxlen <max>" "(for qlf_k4n8, qlf_k6n10f)" ;;
     run self "dfflegalize -cell <supported FF types>" ;;
     run_info self ("techmap -map " +:+ lib_path self +:+ family self +:+ "/cells_map.v")
              "(for pp3)") ;;
  (if family self == "qlf_k4n8" then
     run self "shregmap -minlen 8 -maxlen 8" ;;
     run self ("dfflegalize -cell $_DFF_P_ 0 -cell $_DFF_P??_ 0 -cell $_DFF_N_ 0 " +:+
               "-cell $_DFF_N??_ 0 -cell $_DFFSR_???_ 0")
   else if family self == "qlf_k6n10" then
     run self ("dfflegalize -cell $_DFF_P_ 0 -cell $_DFF_PP?_ 0 -cell $_DFFE_PP?P_ 0 " +:+
               "-cell $_DFFSR_PPP_ 0 -cell $_DFFSRE_PPPP_ 0 -cell " +:+
               "$_DLATCHSR_PPP_ 0")
   else if family self == "qlf_k6n10f" then
     run self "shregmap -minlen 8 -maxlen 20" ;;
     let legalizeArgs := " -cell $_DFFSRE_?NNP_ 0 -cell $_DLATCHSR_?NN_ 0 -cell $_DLATCH_?_ 0" in
     let legalizeArgs :=
       if negb (nosdff self) then legalizeArgs +:+ " -cell $_SDFFE_?N?P_ 0"
       else legalizeArgs in
     run self ("dfflegalize" +:+ legalizeArgs)
   else if family self == "pp3" then
     run self "dfflegalize -cell $_DFFSRE_PPPP_ 0 -cell $_DLATCH_?_ x" ;;
     run self ("techmap -map " +:+ lib_path self +:+ family self +:+ "/cells_map.v")
   else ret tt) ;;
  let techMapArgs := " -map +/techmap.v -map " +:+ lib_path self +:+ family self +:+ "/ffs_map.v" in
  when (help_mode self || negb (noffmap self))
    (run_info self ("techmap " +:+ techMapArgs) "(unless -no_ff_map)") ;;
  when (help_mode self || (family self == "pp3"))
    (run_info self "opt_expr -mux_undef" "(for pp3)") ;;
  run self "opt_merge" ;;
  run self "opt_clean" ;;
  run self ("opt" +:+ noDFFArgs).

Section Script.

(** [rewrite_filename] of the host toolkit: it expands a leading share or
    home directory marker of a path.  It is not part of the plugin. *)
Variable rewrite_filename : string -> string.

(** Checkpoint [map_luts] (lines 526-567). *)
Definition body_map_luts (self : SynthQuickLogicPass) : W unit :=
  when (help_mode self || abcOpt self)
    (when (help_mode self || (family self == "qlf_k6n10") || (family self == "qlf_k6n10f"))
       (if abc9 self then
          run self "read_verilog -lib -specify -icells +/quicklogic/pp3/abc9_model.v" ;;
          run self "abc9 -maxlut 6"
        else
          run_info self "abc -lut 6 " "(for qlf_k6n10, qlf_k6n10f)") ;;
     when (help_mode self || (family self == "qlf_k4n8"))
       (run_info self "abc -lut 4 " "(for qlf_k4n8)") ;;
     when (help_mode self || (family self == "pp3"))
       (run_info self ("techmap -map " +:+ lib_path self +:+ family self +:+ "/latches_map.v")
                 "(for pp3)" ;;
        when (help_mode self || abc9 self)
          (run_info self ("read_verilog -lib -specify -icells " +:+ lib_path self +:+
                          family self +:+ "/abc9_model.v") "(for pp3)" ;;
           run_info self ("techmap -map " +:+ lib_path self +:+ family self +:+ "/abc9_map.v")
                    "   (for pp3)" ;;
           run_info self "abc9 -maxlut 4 -dff" "                             (for pp3)" ;;
           run_info self ("techmap -map " +:+ lib_path self +:+ family self +:+ "/abc9_unmap.v")
                    " (for pp3)") ;;
        when (help_mode self || negb (abc9 self))
          (let lutDefs := "" +:+ lib_path self +:+ family self +:+ "/lutdefs.txt" in
           let lutDefs := rewrite_filename lutDefs in
           let abcArgs :=
             if help_mode self then "<script>"
             else "+read_lut," +:+ lutDefs +:+
                  ";" +:+
                  "strash;ifraig;scorr;dc2;dretime;strash;dch,-f;if;mfs2;" +:+
                  "sweep;eliminate;if;mfs;lutpack;" +:+
                  "dress" in
           run_info self ("abc -script " +:+ abcArgs)
                    "                            (for pp3 if -no_abc9)"))) ;;
  run self "clean" ;;
  run self "opt_lut".

(** Checkpoint [map_cells] (lines 569-574). *)
Definition body_map_cells (self : SynthQuickLogicPass) : W unit :=
  let techMapArgs := "-map " +:+ lib_path self +:+ family self +:+ "/lut_map.v" in
  run self ("techmap " +:+ techMapArgs) ;;
  run self "clean".

(** Checkpoint [check] (lines 576-581). *)
Definition body_check (self : SynthQuickLogicPass) : W unit :=
  run self "autoname" ;;
  run self "hierarchy -check" ;;
  run self "stat" ;;
  run self "check -noinit".

(** Checkpoint [iomap] (lines 583-586). *)
Definition body_iomap (self : SynthQuickLogicPass) : W unit :=
  run self "clkbufmap -inpad ckpad Q:P" ;;
  run self ("iopadmap -bits -outpad outpad A:P -inpad inpad Q:P " +:+
            "-tinoutpad bipad EN:Q:A:P A:top").

(** Checkpoint [finalize] (lines 588-598). *)
Definition body_finalize (self : SynthQuickLogicPass) : W unit :=
  when (help_mode self || (family self == "pp3"))
    (run_info self "setundef -zero -params -undriven" "(for pp3)") ;;
  when ((family self == "pp3") || negb (empty (edif_file self)))
    (run_info self "hilomap -hicell logic_1 a -locell logic_0 a -singleton A:top"
              "(for pp3 or if -edif)") ;;
  run self "opt_clean -purge" ;;
  run self "check" ;;
  run self "blackbox =A:whitebox".

(** Checkpoint [blif] (lines 600-604). *)
Definition body_blif (self : SynthQuickLogicPass) : W unit :=
  when (help_mode self || negb (empty (blif_file self)))
    (run self ("write_blif -param " +:+
               (if help_mode self then "<file-name>" else blif_file self))).

(** Checkpoint [edif] (lines 606-611). *)
Definition body_edif (self : SynthQuickLogicPass) : W unit :=
  run self "splitnets -ports -format ()" ;;
  run self "quicklogic_eqn" ;;
  run self ("write_ql_edif -nogndvcc -attrprop -pvector par " +:+ currmodule self +:+ " " +:+
            (if help_mode self then "<file-name>" else edif_file self)).

(** Checkpoint [verilog] (lines 613-617). *)
Definition body_verilog (self : SynthQuickLogicPass) : W unit :=
  when (help_mode self || negb (empty (verilog_file self)))
    (run self ("write_verilog -noattr -nohex " +:+
               (if help_mode self then "<file-name>" else verilog_file self))).

(** [script] (lines 243-618).  The condition of the [map_dsp] block is the
    comma expression [check_label("map_dsp"), "(skip if -no_dsp)"]: the
    label test is evaluated and dropped, and the block is entered on the
    non-null string literal. *)
Definition script (self : SynthQuickLogicPass) : W SynthQuickLogicPass :=
  let self := if help_mode self then set_family "<family>" self else self in
  let noDFFArgs := "" in
  b <- check_label self "begin" "" ;;
  when b (body_begin self) ;;
  b <- check_label self "prepare" "" ;;
  noDFFArgs <- (if b then body_prepare self noDFFArgs else ret noDFFArgs) ;;
  _ <- check_label self "map_dsp" "" ;;
  body_map_dsp self ;;
  b <- check_label self "coarse" "" ;;
  when b (body_coarse self noDFFArgs) ;;
  b <- check_label self "map_bram" "(skip if -no_bram)" ;;
  when (b && (help_mode self || (family self == "qlf_k6n10") ||
              (family self == "qlf_k6n10f") || (family self == "pp3")) && inferBram self)
    (body_map_bram self) ;;
  b <- check_label self "map_ffram" "" ;;
  when b (body_map_ffram self noDFFArgs) ;;
  b <- check_label self "map_gates" "" ;;
  when b (body_map_gates self noDFFArgs) ;;
  b <- check_label self "map_ffs" "" ;;
  when b (body_map_ffs self noDFFArgs) ;;
  b <- check_label self "map_luts" "" ;;
  when b (body_map_luts self) ;;
  b <- check_label self "map_cells" "(for pp3, qlf_k6n10)" ;;
  when (b && (help_mode self || (family self == "qlf_k6n10") || (family self == "pp3")))
    (body_map_cells self) ;;
  b <- check_label self "check" "" ;;
  when b (body_check self) ;;
  b <- check_label self "iomap" "(for pp3)" ;;
  when (b && ((family self == "pp3") || help_mode self)) (body_iomap self) ;;
  b <- check_label self "finalize" "" ;;
  when b (body_finalize self) ;;
  b <- check_label self "blif" "(if -blif)" ;;
  when b (body_blif self) ;;
  b <- check_label self "edif" "(if -edif)" ;;
  when (b && (help_mode self || negb (empty (edif_file self)))) (body_edif self) ;;
  b <- check_label self "verilog" "(if -verilog)" ;;
  when b (body_verilog self) ;;
  ret self.

(** Modelled from the spec: [ScriptPass::run_script], which is not part of
    the plugin's sources.  It leaves preview mode, records the resume
    window and runs the script once. *)
Definition run_script (self : SynthQuickLogicPass) (run_from run_to : string)
  : W SynthQuickLogicPass :=
  let self := set_help_mode false self in
  let self := set_active_run_from run_from self in
  let self := set_active_run_to run_to self in
  script self.

(** Modelled from the spec: [ScriptPass::help_script], the preview run
    behind [help()]. *)
Definition help_script (self : SynthQuickLogicPass) : W SynthQuickLogicPass :=
  let self := clear_flags self in
  let self := set_help_mode true self in
  let self := set_active_run_from "" self in
  let self := set_active_run_to "" self in
  script self.

End Script.

(** ** The design and the entry point *)

(** Modelled from the spec: the part of the host's design object that
    [execute] consults, which is whether the design is fully selected and
    the scratch key-value store with its string and integer entries. *)
Record Design := {
  full_selection : bool;
  scratchpad_string : gmap string string;
  scratchpad_int : gmap string Z
}.

Definition scratchpad_get_string (d : Design) (id def : string) : string :=
  default def (scratchpad_string d !! id).

Definition scratchpad_get_int (d : Design) (id : string) (def : Z) : Z :=
  default def (scratchpad_int d !! id).

Definition scratchpad_set_int (id : string) (v : Z) (d : Design) : Design :=
  {| full_selection := full_selection d;
     scratchpad_string := scratchpad_string d;
     scratchpad_int := <[id := v]> (scratchpad_int d) |}.

(** What one invocation of the command acts on: the design, the warnings
    printed so far and the events of the script. *)
Record World := {
  design : Design;
  warnings : list string;
  trace : list Event
}.

(** [execute] either returns or is left through [log_cmd_error]. *)
Inductive Outcome (A : Type) :=
| Fatal (msg : string)
| Done (a : A).
Arguments Fatal {A} msg.
Arguments Done {A} a.

Definition M (A : Type) : Type := World -> Outcome A * World.

Definition mret {A} (a : A) : M A := fun w => (Done a, w).

Definition mbind {A B} (m : M A) (k : A -> M B) : M B :=
  fun w =>
    match m w with
    | (Done a, w') => k a w'
    | (Fatal msg, w') => (Fatal msg, w')
    end.

Definition log_cmd_error {A} (msg : string) : M A := fun w => (Fatal msg, w).

Definition log_warning (msg : string) : M unit :=
  fun w => (Done tt, {| design := design w; warnings := warnings w ++ [msg];
                        trace := trace w |}).

Definition get_design : M Design := fun w => (Done (design w), w).

Definition put_design (d : Design) : M unit :=
  fun w => (Done tt, {| design := d; warnings := warnings w; trace := trace w |}).

(** Running a script appends its events to the trace. *)
Definition perform {A} (m : W A) : M A :=
  fun w => (Done (value m), {| design := design w; warnings := warnings w;
                               trace := trace w ++ events m |}).

Declare Scope exec_scope.
Delimit Scope exec_scope with exec.
Notation "x <- m ;; k" := (mbind m (fun x => k))
  (at level 100, m at next level, right associativity) : exec_scope.
Notation "m ;; k" := (mbind m (fun _ => k))
  (at level 100, right associativity) : exec_scope.

(** The locals [run_from] and [run_to] of [execute] next to the pass whose
    members the option loop assigns. *)
Record Parsed := {
  pass : SynthQuickLogicPass;
  run_from : string;
  run_to : string
}.

Definition on_pass (f : SynthQuickLogicPass -> SynthQuickLogicPass) (st : Parsed) : Parsed :=
  {| pass := f (pass st); run_from := run_from st; run_to := run_to st |}.

(** The options that take the next argument as their value (lines
    143-174); [None] when [arg] is none of them. *)
Definition value_option (arg val : string) (st : Parsed) : option Parsed :=
  if arg == "-run" then
    match find ":" val with
    | None => Some {| pass := pass st; run_from := val; run_to := val |}
    | Some pos => Some {| pass := pass st;
                          run_from := substr_to pos val;
                          run_to := substr_from (pos + 1) val |}
    end
  else if arg == "-top" then Some (on_pass (set_top_opt ("-top " +:+ val)) st)
  else if arg == "-edif" then Some (on_pass (set_edif_file val) st)
  else if arg == "-family" then Some (on_pass (set_family val) st)
  else if arg == "-blif" then Some (on_pass (set_blif_file val) st)
  else if arg == "-verilog" then Some (on_pass (set_verilog_file val) st)
  else None.

(** The options without a value (lines 175-210). *)
Definition flag_option (arg : string) (st : Parsed) : option Parsed :=
  if arg == "-no_dsp" then Some (on_pass (set_nodsp true) st)
  else if arg == "-use_dsp_cfg_params" then
    Some (on_pass (set_use_dsp_cfg_params " -use_dsp_cfg_params") st)
  else if arg == "-no_adder" then Some (on_pass (set_inferAdder false) st)
  else if arg == "-no_bram" then Some (on_pass (set_inferBram false) st)
  else if arg == "-bram_types" then Some (on_pass (set_bramTypes true) st)
  else if arg == "-no_abc_opt" then Some (on_pass (set_abcOpt false) st)
  else if arg == "-no_abc9" then Some (on_pass (set_abc9 false) st)
  else if arg == "-no_ff_map" then Some (on_pass (set_noffmap true) st)
  else if arg == "-nosdff" then Some (on_pass (set_nosdff true) st)
  else None.

(** The option loop (lines 142-213) over the arguments from [argidx] on.
    A value option is taken only when an argument follows it; the loop
    stops at the first argument that is no option and returns its index. *)
Fixpoint parse_args (args : list string) (argidx : nat) (st : Parsed) : Parsed * nat :=
  match args with
  | [] => (st, argidx)
  | arg :: rest =>
      let taken :=
        match rest with
        | val :: rest' =>
            match value_option arg val st with
            | Some st' => Some (parse_args rest' (argidx + 2) st')
            | None => None
            end
        | [] => None
        end in
      match taken with
      | Some result => result
      | None =>
          match flag_option arg st with
          | Some st' => parse_args rest (argidx + 1) st'
          | None => (st, argidx)
          end
      end
  end.

(** The families [execute] accepts (line 219). *)
Definition supported_families : list string :=
  ["pp3"; "qlf_k4n8"; "qlf_k6n10"; "qlf_k6n10f"].

Section Execute.

Local Open Scope exec_scope.

Variable rewrite_filename : string -> string.

(** [extra_args] of the host toolkit handles the arguments the option loop
    left over: it rejects an unknown option with a command error, or takes
    the remaining arguments as a selection on the design. *)
Variable extra_args : list string -> nat -> Design -> string + Design.

(** The state of the option loop when it ends: [clear_flags], the library
    path from the scratchpad, then the options (lines 138-213). *)
Definition parse_command (self : SynthQuickLogicPass) (args : list string) (d : Design)
  : Parsed * nat :=
  let self := clear_flags self in
  let self := set_lib_path (scratchpad_get_string d "ql.lib_path" (lib_path self)) self in
  parse_args (tl args) 1 {| pass := self; run_from := ""; run_to := "" |}.

(** [execute] (lines 136-241).  The log header and the log nesting around
    [run_script] are diagnostics only and are left out. *)
Definition execute (self : SynthQuickLogicPass) (args : list string)
  : M SynthQuickLogicPass :=
  d <- get_design ;;
  let '(st, argidx) := parse_command self args d in
  let self := pass st in
  match extra_args args argidx d with
  | inl msg => log_cmd_error msg
  | inr d => put_design d
  end ;;
  d <- get_design ;;
  (if negb (full_selection d)
   then log_cmd_error ("This command only operates on fully selected designs!" +:+ nl)
   else mret tt) ;;
  (if (family self != "pp3") && (family self != "qlf_k4n8") &&
      (family self != "qlf_k6n10") && (family self != "qlf_k6n10f")
   then log_cmd_error ("Invalid family specified: '" +:+ family self +:+ "'" +:+ nl)
   else mret tt) ;;
  let self := if family self == "qlf_k4n8" then set_nosdff true self else self in
  (if abc9 self && (scratchpad_get_int d "abc9.D" 0 =? 0)%Z
   then log_warning ("delay target has not been set via SDC or scratchpad; " +:+
                     "assuming 12 MHz clock." +:+ nl) ;;
        put_design (scratchpad_set_int "abc9.D" 500 d)
   else mret tt) ;;
  perform (run_script rewrite_filename self (run_from st) (run_to st)).

End Execute.

(** An empty design that is fully selected, and the world of a fresh
    invocation on it. *)
Definition empty_design : Design :=
  {| full_selection := true; scratchpad_string := ∅; scratchpad_int := ∅ |}.

Definition fresh (d : Design) : World :=
  {| design := d; warnings := []; trace := [] |}.

(** A pass object before its first use. *)
Definition new_pass : SynthQuickLogicPass :=
  {| help_mode := false; active_run_from := ""; active_run_to := "";
     top_opt := ""; edif_file := ""; blif_file := ""; family := "";
     currmodule := ""; verilog_file := ""; use_dsp_cfg_params := "";
     lib_path := ""; nodsp := false; inferAdder := false; inferBram := false;
     bramTypes := false; abcOpt := false; abc9 := false; noffmap := false;
     nosdff := false |}.

(** A host whose [extra_args] finds nothing left to handle, and whose
    [rewrite_filename] leaves paths as they are. *)
Definition no_extra_args (args : list string) (argidx : nat) (d : Design) : string + Design :=
  inr d.

(** * Notions used in the statements *)

(** Whether a checkpoint of a real run lies in the resume window, and the
    value the local [noDFFArgs] has after the [prepare] block. *)
Definition active (self : SynthQuickLogicPass) (label : string) : bool :=
  in_window (active_run_from self) (active_run_to self) label.

Definition noDFFArgs_of (self : SynthQuickLogicPass) : string :=
  if active self "prepare" then value (body_prepare self "") else "".

(** The commands a checkpoint contributes to a real run. *)
Definition segment (b : bool) (body : W unit) : list string :=
  if b then invoked (events body) else [].

(** The commands of a real run, checkpoint by checkpoint.  The [prepare]
    block yields a value, so its commands are spelled out; the [map_dsp]
    body is not guarded by its label. *)
Definition script_segments (rewrite_filename : string -> string)
    (self : SynthQuickLogicPass) : list (string * list string) :=
  let noDFFArgs := noDFFArgs_of self in
  [ ("begin", segment (active self "begin") (body_begin self));
    ("prepare", if active self "prepare"
                then invoked (events (body_prepare self "")) else []);
    ("map_dsp", invoked (events (body_map_dsp self)));
    ("coarse", segment (active self "coarse") (body_coarse self noDFFArgs));
    ("map_bram",
     segment (active self "map_bram" &&
              ((family self == "qlf_k6n10") || (family self == "qlf_k6n10f") ||
               (family self == "pp3")) && inferBram self)
             (body_map_bram self));
    ("map_ffram", segment (active self "map_ffram") (body_map_ffram self noDFFArgs));
    ("map_gates", segment (active self "map_gates") (body_map_gates self noDFFArgs));
    ("map_ffs", segment (active self "map_ffs") (body_map_ffs self noDFFArgs));
    ("map_luts", segment (active self "map_luts") (body_map_luts rewrite_filename self));
    ("map_cells",
     segment (active self "map_cells" &&
              ((family self == "qlf_k6n10") || (family self == "pp3")))
             (body_map_cells self));
    ("check", segment (active self "check") (body_check self));
    ("iomap", segment (active self "iomap" && (family self == "pp3")) (body_iomap self));
    ("finalize", segment (active self "finalize") (body_finalize self));
    ("blif", segment (active self "blif") (body_blif self));
    ("edif", segment (active self "edif" && negb (empty (edif_file self)))
                     (body_edif self));
    ("verilog", segment (active self "verilog") (body_verilog self)) ].

(** A pass object in a real run, configured for one family. *)
Definition real_pass (fam : string) : SynthQuickLogicPass :=
  set_family fam (clear_flags new_pass).

(** What the [qlf_k6n10] branch of [map_dsp] issues in a real run. *)
Definition map_dsp_k6n10_commands (lib : string) : list string :=
  [ "memory_dff";
    "wreduce t:$mul";
    "techmap -map +/mul2dsp.v -map " +:+ lib +:+ "qlf_k6n10/dsp_map.v " +:+
    "-D DSP_A_MAXWIDTH=16 -D DSP_B_MAXWIDTH=16 -D DSP_A_MINWIDTH=2 " +:+
    "-D DSP_B_MINWIDTH=2 -D DSP_Y_MINWIDTH=11 -D DSP_NAME=$__MUL16X16";
    "select a:mul2dsp";
    "setattr -unset mul2dsp";
    "opt_expr -fine";
    "wreduce";
    "select -clear";
    "ql_dsp";
    "chtype -set $mul t:$__soft_mul" ].

(** The command name the host passes as [args[0]]. *)
Definition command_name : string := "synth_quicklogic".

(** One invocation over the whole script, and the same configuration run
    in two invocations, the second one on the world the first one left. *)
Definition single_run (rewrite_filename : string -> string) (options : list string) : World :=
  snd (execute rewrite_filename no_extra_args new_pass
               (command_name :: options) (fresh empty_design)).

Definition resumed_run (rewrite_filename : string -> string) (options : list string) : World :=
  let w := snd (execute rewrite_filename no_extra_args new_pass
                        (command_name :: options ++ ["-run"; "begin:map_gates"])
                        (fresh empty_design)) in
  snd (execute rewrite_filename no_extra_args new_pass
               (command_name :: options ++ ["-run"; "map_ffs:verilog"]) w).

(** [r1] has the larger maximum operand width on both multiplier inputs. *)
Definition wider (r1 r2 : DspParams) : Prop :=
  (a_maxwidth r2 < a_maxwidth r1)%N /\ (b_maxwidth r2 < b_maxwidth r1)%N.

(** Whether [sub] occurs in [s]. *)
Definition contains (sub s : string) : bool :=
  match String.index 0 sub s with Some _ => true | None => false end.

(** The re-typing commands of the BRAM variants, by kind. *)
Definition retypes_bram (cmd : string) : bool :=
  String.prefix "chtype -set TDP36K_" cmd.

Definition nonsplit_retyping (cmd : string) : bool :=
  retypes_bram cmd && contains "_nonsplit t:TDP36K " cmd.

Definition split_retyping (cmd : string) : bool :=
  retypes_bram cmd && contains "_split t:TDP36K " cmd.

Definition selects_inferred (cmd : string) : bool :=
  contains " a:is_inferred=1 " cmd.

Definition count (P : string -> bool) (cmds : list string) : Z :=
  Z.of_nat (length (filter P cmds)).

(** The cell type a re-typing command sets: the third word. *)
Fixpoint word (s : string) : string :=
  match s with
  | EmptyString => EmptyString
  | String c s' => if Ascii.eqb c " " then EmptyString else String c (word s')
  end.

Definition retype_target (cmd : string) : string :=
  word (substr_from (String.length "chtype -set ") cmd).

(** The naming scheme of the specialized cell types. *)
Inductive Variant := BRAM | FIFO_ASYNC | FIFO_SYNC.

Definition variant_name (v : Variant) : string :=
  match v with
  | BRAM => "BRAM"
  | FIFO_ASYNC => "FIFO_ASYNC"
  | FIFO_SYNC => "FIFO_SYNC"
  end.

Definition nonsplit_type (v : Variant) (a b : Z) : string :=
  "TDP36K_" +:+ variant_name v +:+ "_A_X" +:+ fmt_d a +:+ "_B_X" +:+ fmt_d b +:+ "_nonsplit".

Definition split_type (v : Variant) (a1 b1 a2 b2 : Z) : string :=
  "TDP36K_" +:+ variant_name v +:+ "_A1_X" +:+ fmt_d a1 +:+ "_B1_X" +:+ fmt_d b1 +:+
  "_A2_X" +:+ fmt_d a2 +:+ "_B2_X" +:+ fmt_d b2 +:+ "_split".

Definition nonsplit_widths : list Z := [1; 2; 4; 9; 18; 36]%Z.
Definition split_widths : list Z := [1; 2; 4; 9; 18]%Z.

(** Every combination of widths, the last port varying fastest. *)
Definition nonsplit_types (variants : list Variant) : list string :=
  a ← nonsplit_widths; b ← nonsplit_widths; v ← variants; [nonsplit_type v a b].

Definition split_types (variants : list Variant) : list string :=
  a1 ← split_widths; b1 ← split_widths; a2 ← split_widths; b2 ← split_widths;
  v ← variants; [split_type v a1 b1 a2 b2].

(** The commands of [bram_types_chtypes] in a real run. *)
Definition bram_types_commands : list string :=
  invoked (events (bram_types_chtypes (real_pass "qlf_k6n10f"))).

(** The memory mapping commands of [map_bram] for [qlf_k6n10f]. *)
Definition map_bram_k6n10f_commands (lib : string) : list string :=
  [ "memory_libmap -lib " +:+ lib +:+ "qlf_k6n10f/libmap_brams.txt";
    "ql_bram_merge";
    "techmap -map " +:+ lib +:+ "qlf_k6n10f/libmap_brams_map.v";
    "techmap -autoproc -map " +:+ lib +:+ "qlf_k6n10f/brams_map.v";
    "techmap -map " +:+ lib +:+ "qlf_k6n10f/brams_final_map.v" ].

(** What [execute] does to the flags after the option loop (lines 226-228). *)
Definition resolve_flags (p : SynthQuickLogicPass) : SynthQuickLogicPass :=
  if family p == "qlf_k4n8" then set_nosdff true p else p.

(** The condition under which [execute] fills in the delay target (line 230). *)
Definition needs_delay_target (p : SynthQuickLogicPass) (d : Design) : bool :=
  abc9 p && (scratchpad_get_int d "abc9.D" 0 =? 0)%Z.

Definition delay_target_warning : string :=
  "delay target has not been set via SDC or scratchpad; assuming 12 MHz clock." +:+ nl.

(** The pass object [run_script] works on. *)
Definition started (p : SynthQuickLogicPass) (run_from run_to : string) : SynthQuickLogicPass :=
  set_active_run_to run_to (set_active_run_from run_from (set_help_mode false p)).

(** A design whose delay target was set to 0 beforehand. *)
Definition zero_delay_design : Design :=
  scratchpad_set_int "abc9.D" 0 empty_design.

(** The pass a command invokes is its first word; the DSP passes of the
    plugin are the ones named [ql_dsp...]. *)
Definition pass_name (cmd : string) : string := word cmd.

Definition dsp_pass (cmd : string) : bool := String.prefix "ql_dsp" (pass_name cmd).

Definition no_dsp_pass (cmds : list string) : bool :=
  forallb (fun cmd => negb (dsp_pass cmd)) cmds.

(** The values the local [noDFFArgs] can take. *)
Definition noDFFArgs_values : list string :=
  [""; " -nosdff"; " -nodffe"; " -nosdff -nodffe"].

(** Proof steps shared by the lemmas on checkpoint bodies: take a pass in
    a real run apart, split on the tests the body makes, go through the
    values of [noDFFArgs]. *)
Ltac open_pass self :=
  destruct self as [hm rf rt top edif blif fam cur ver cfg lib nd ia ib bt ao a9 nf ns];
  cbn [help_mode nodsp]; intros ->.

Ltac split_tests :=
  cbn [help_mode active_run_from active_run_to top_opt edif_file blif_file family
       currmodule verilog_file use_dsp_cfg_params lib_path nodsp inferAdder inferBram
       bramTypes abcOpt abc9 noffmap nosdff orb andb negb];
  repeat match goal with
         | |- context [String.eqb ?v ?l] => is_var v; destruct (String.eqb v l)
         end;
  repeat match goal with
         | b : bool |- _ => match goal with |- context [b] => destruct b end
         end.

Ltac each_value H :=
  unfold noDFFArgs_values in H; cbn [In] in H;
  repeat (destruct H as [<-|H]); [..|contradiction].

(** The checkpoints of a run other than [map_dsp]. *)
Definition outside_map_dsp (segments : list (string * list string))
  : list (string * list string) :=
  filter (fun seg => fst seg <> "map_dsp") segments.

(** ** Notions for the option loop and the entry point *)

(** The options of the loop: those that take a value and the flags. *)
Definition value_option_names : list string :=
  ["-run"; "-top"; "-edif"; "-family"; "-blif"; "-verilog"].

Definition flag_option_names : list string :=
  ["-no_dsp"; "-use_dsp_cfg_params"; "-no_adder"; "-no_bram"; "-bram_types";
   "-no_abc_opt"; "-no_abc9"; "-no_ff_map"; "-nosdff"].

(** The pass with the members inherited from [ScriptPass] set as given:
    what is left are the flags of [SynthQuickLogicPass]. *)
Definition rebase (h : bool) (a b : string) (p : SynthQuickLogicPass) : SynthQuickLogicPass :=
  set_help_mode h (set_active_run_from a (set_active_run_to b p)).

Definition flags_of (p : SynthQuickLogicPass) : SynthQuickLogicPass :=
  rebase false "" "" p.

(** A flag that the options can only switch on, respectively off. *)
Definition stays_on (flag : SynthQuickLogicPass -> bool) (st st' : Parsed) : Prop :=
  flag (pass st) = true -> flag (pass st') = true.

Definition stays_off (flag : SynthQuickLogicPass -> bool) (st st' : Parsed) : Prop :=
  flag (pass st) = false -> flag (pass st') = false.

(** The error messages of [execute]. *)
Definition selection_error : string :=
  "This command only operates on fully selected designs!" +:+ nl.


(** A world with another design. *)
Definition with_design (d : Design) (w : World) : World :=
  {| design := d; warnings := warnings w; trace := trace w |}.

(** The flags the options switch on stay on, and those they switch off
    stay off. *)
Definition one_way (st st' : Parsed) : Prop :=
  stays_on nodsp st st' /\ stays_on bramTypes st st' /\
  stays_on noffmap st st' /\ stays_on nosdff st st' /\
  stays_off inferAdder st st' /\ stays_off inferBram st st' /\
  stays_off abcOpt st st' /\ stays_off abc9 st st'.

(** ** Notions for argument lists *)

(** An argument list the option loop reads to its end: flags, and value
    options each followed by its value. *)
Fixpoint options_only (args : list string) : bool :=
  match args with
  | [] => true
  | arg :: rest =>
      if existsb (String.eqb arg) value_option_names then
        match rest with
        | _ :: rest' => options_only rest'
        | [] => false
        end
      else existsb (String.eqb arg) flag_option_names && options_only rest
  end.

(** The state with the member that the option [opt] assigns put to a fixed
    value: two states with the same image differ at most in that member. *)
Definition but_for (opt : string) (st : Parsed) : Parsed :=
  match value_option opt "" st with
  | Some st' => st'
  | None => default st (flag_option opt st)
  end.

(** A proof step for the lemmas on single options: go through the names an
    option is compared with. *)
Ltac each_option :=
  repeat match goal with
         | |- context [String.eqb ?x ?l] => destruct (String.eqb x l)
         end.

(** ** A host that can reject a command *)

Section Host.

Local Open Scope exec_scope.

Variable rewrite_filename : string -> string.
Variable extra_args : list string -> nat -> Design -> string + Design.

(** Modelled from the spec: the pass dispatcher behind [ScriptPass::run],
    which is not part of the plugin's sources.  It performs a command on
    the design, or rejects it with a command error. *)
Variable call : Design -> string -> string + Design.

(** Modelled from the spec: a real run hands its commands to the
    dispatcher one after the other.  The first command that is rejected
    ends the run with its error; what the commands before it did to the
    design stays. *)
Fixpoint dispatch (evs : list Event) (w : World) : Outcome unit * World :=
  match evs with
  | [] => (Done tt, w)
  | Invoke cmd :: rest =>
      match call (design w) cmd with
      | inl msg =>
          (Fatal msg, {| design := design w; warnings := warnings w;
                         trace := trace w ++ [Invoke cmd] |})
      | inr d =>
          dispatch rest {| design := d; warnings := warnings w;
                           trace := trace w ++ [Invoke cmd] |}
      end
  | ev :: rest =>
      dispatch rest {| design := design w; warnings := warnings w;
                       trace := trace w ++ [ev] |}
  end.

(** [execute] (lines 136-241) on such a host.  The script does not look
    at the design, so its commands are the same whatever the dispatcher
    answers, up to the one that is rejected. *)
Definition execute_on_host (self : SynthQuickLogicPass) (args : list string)
  : M SynthQuickLogicPass :=
  d <- get_design ;;
  let '(st, argidx) := parse_command self args d in
  let self := pass st in
  match extra_args args argidx d with
  | inl msg => log_cmd_error msg
  | inr d => put_design d
  end ;;
  d <- get_design ;;
  (if negb (full_selection d)
   then log_cmd_error ("This command only operates on fully selected designs!" +:+ nl)
   else mret tt) ;;
  (if (family self != "pp3") && (family self != "qlf_k4n8") &&
      (family self != "qlf_k6n10") && (family self != "qlf_k6n10f")
   then log_cmd_error ("Invalid family specified: '" +:+ family self +:+ "'" +:+ nl)
   else mret tt) ;;
  let self := if family self == "qlf_k4n8" then set_nosdff true self else self in
  (if abc9 self && (scratchpad_get_int d "abc9.D" 0 =? 0)%Z
   then log_warning ("delay target has not been set via SDC or scratchpad; " +:+
                     "assuming 12 MHz clock." +:+ nl) ;;
        put_design (scratchpad_set_int "abc9.D" 500 d)
   else mret tt) ;;
  let the_run := run_script rewrite_filename self (run_from st) (run_to st) in
  dispatch (events the_run) ;;
  mret (value the_run).

End Host.


Definition obliging (d : Design) (cmd : string) : string + Design := inr d.

(** ** Notions for the script *)

(** The LUT mapping of [map_luts], family by family. *)
Definition lutdefs_script (rewrite_filename : string -> string) (lib : string) : string :=
  "abc -script +read_lut," +:+ rewrite_filename (lib +:+ "pp3/lutdefs.txt") +:+
  ";strash;ifraig;scorr;dc2;dretime;strash;dch,-f;if;mfs2;" +:+
  "sweep;eliminate;if;mfs;lutpack;dress".

Definition lut_mapper_commands (rewrite_filename : string -> string)
    (self : SynthQuickLogicPass) : list string :=
  if (family self == "qlf_k6n10") || (family self == "qlf_k6n10f") then
    if abc9 self
    then ["read_verilog -lib -specify -icells +/quicklogic/pp3/abc9_model.v"; "abc9 -maxlut 6"]
    else ["abc -lut 6 "]
  else if family self == "qlf_k4n8" then ["abc -lut 4 "]
  else if family self == "pp3" then
    ("techmap -map " +:+ lib_path self +:+ "pp3/latches_map.v") ::
    (if abc9 self
     then [ "read_verilog -lib -specify -icells " +:+ lib_path self +:+ "pp3/abc9_model.v";
            "techmap -map " +:+ lib_path self +:+ "pp3/abc9_map.v";
            "abc9 -maxlut 4 -dff";
            "techmap -map " +:+ lib_path self +:+ "pp3/abc9_unmap.v" ]
     else [lutdefs_script rewrite_filename (lib_path self)])
  else [].

(** The LUT mappers among the passes. *)
Definition lut_mapper (cmd : string) : bool :=
  (pass_name cmd == "abc") || (pass_name cmd == "abc9").

(** The passes of the script that belong to particular families, with the
    families the script runs them for. *)
Definition family_passes : list (string * list string) :=
  [ ("tribuf", ["pp3"]);
    ("muxcover", ["pp3"]);
    ("pp3_braminit", ["pp3"]);
    ("clkbufmap", ["pp3"]);
    ("iopadmap", ["pp3"]);
    ("setundef", ["pp3"]);
    ("memory_bram", ["qlf_k6n10"; "pp3"]);
    ("memory_libmap", ["qlf_k6n10f"]);
    ("ql_bram_merge", ["qlf_k6n10f"]);
    ("shregmap", ["qlf_k4n8"; "qlf_k6n10f"]);
    ("memory_dff", ["qlf_k6n10"]);
    ("ql_dsp", ["qlf_k6n10"]);
    ("ql_dsp_macc", ["qlf_k6n10f"]);
    ("ql_dsp_simd", ["qlf_k6n10f"]);
    ("ql_dsp_io_regs", ["qlf_k6n10f"]);
    ("abc9", ["qlf_k6n10"; "qlf_k6n10f"; "pp3"]) ].

Fixpoint families_of (table : list (string * list string)) (name : string)
  : option (list string) :=
  match table with
  | [] => None
  | (n, fams) :: table' => if n == name then Some fams else families_of table' name
  end.

(** Whether the family may see the command: the command's pass is either
    not family specific or listed for the family. *)
Definition family_allows (fam cmd : string) : bool :=
  match families_of family_passes (pass_name cmd) with
  | None => true
  | Some fams => existsb (String.eqb fam) fams
  end.

(** The values the option loop gives [use_dsp_cfg_params]. *)
Definition use_dsp_cfg_params_values : list string := [""; " -use_dsp_cfg_params"].

(** The commands of BRAM inference: the memory passes of [map_bram] and
    the re-typing of the BRAM cells. *)
Definition bram_command (cmd : string) : bool :=
  existsb (String.eqb (pass_name cmd))
          ["memory_libmap"; "ql_bram_merge"; "memory_bram"; "pp3_braminit"] ||
  retypes_bram cmd.

(** The families whose memories [map_bram] maps. *)
Definition bram_families : list string := ["qlf_k6n10"; "qlf_k6n10f"; "pp3"].

(** The checkpoints of a run other than [map_bram]. *)
Definition outside_map_bram (segments : list (string * list string))
  : list (string * list string) :=
  filter (fun seg => fst seg <> "map_bram") segments.

(** Proof step: go through the supported families. *)
Ltac each_family H :=
  unfold supported_families in H; cbn [In] in H;
  destruct H as [<-|[<-|[<-|[<-|[]]]]].

Ltac unfold_bodies :=
  unfold body_begin, body_prepare, body_map_dsp, map_dsp_k6n10, map_dsp_k6n10f,
    body_coarse, body_map_bram, body_map_ffram, body_map_gates, body_map_ffs,
    body_map_luts, body_map_cells, body_check, body_iomap, body_finalize, body_blif,
    body_edif, body_verilog, run, run_info, empty.

(** ** Notions for the preview *)

(** The checkpoint labels written to the help text, in order. *)
Fixpoint labels (evs : list Event) : list string :=
  match evs with
  | [] => []
  | HelpLabel label _ :: evs' => label :: labels evs'
  | _ :: evs' => labels evs'
  end.

(** A part of the script that hands no command to the pass dispatcher,
    respectively writes no label. *)
Definition silent {A} (m : W A) : Prop := invoked (events m) = [].
Definition unlabelled {A} (m : W A) : Prop := labels (events m) = [].

(** A pass with the DSP, BRAM and ABC9 options set to other values. *)
Definition with_dsp_bram_abc9 (a t b n : bool) (c : string) (p : SynthQuickLogicPass)
  : SynthQuickLogicPass :=
  set_nodsp a (set_use_dsp_cfg_params c (set_inferBram b (set_bramTypes t (set_abc9 n p)))).

(** The simulation libraries of the family that [begin] reads besides the
    common one. *)
Definition sim_files (self : SynthQuickLogicPass) : list string :=
  "cells_sim.v" ::
  (if family self == "qlf_k6n10f"
   then "dsp_sim.v" :: "brams_sim.v" ::
        (if bramTypes self then ["bram_types_sim.v"] else [])
   else []).

Fixpoint join (parts : list string) : string :=
  match parts with
  | [] => ""
  | part :: parts' => part +:+ join parts'
  end.

(** The flip-flop legalization commands among the commands. *)
Definition legalizes (cmd : string) : bool := pass_name cmd == "dfflegalize".
Definition maps_shift_registers (cmd : string) : bool := pass_name cmd == "shregmap".

(** * Properties *)

(** ** The writer monad *)

Lemma events_bind {A B} (m : W A) (k : A -> W B) :
  events (bind m k) = events m ++ events (k (value m)).
Proof. reflexivity. Qed.

Lemma value_bind {A B} (m : W A) (k : A -> W B) :
  value (bind m k) = value (k (value m)).
Proof. reflexivity. Qed.

Lemma events_ret {A} (a : A) : events (ret a) = [].
Proof. reflexivity. Qed.

Lemma events_when (b : bool) (body : W unit) :
  events (when b body) = if b then events body else [].
Proof. destruct b; reflexivity. Qed.

Lemma value_if {A} (b : bool) (m1 m2 : W A) :
  value (if b then m1 else m2) = if b then value m1 else value m2.
Proof. destruct b; reflexivity. Qed.

Lemma invoked_app (l1 l2 : list Event) :
  invoked (l1 ++ l2) = invoked l1 ++ invoked l2.
Proof.
  induction l1 as [|e l1 IH]; simpl; [reflexivity|].
  destruct e; simpl; rewrite IH; reflexivity.
Qed.

Lemma invoked_if (b : bool) (l1 l2 : list Event) :
  invoked (if b then l1 else l2) = if b then invoked l1 else invoked l2.
Proof. destruct b; reflexivity. Qed.

Lemma events_for_each {A} (l : list A) (body : A -> W unit) :
  events (for_each l body) = flat_map (fun x => events (body x)) l.
Proof.
  induction l as [|x l IH]; cbn [for_each flat_map]; [reflexivity|].
  rewrite events_bind, IH. reflexivity.
Qed.

(** ** The engine in a real run *)

Section RealRun.

Variable self : SynthQuickLogicPass.
Hypothesis real : help_mode self = false.

Lemma run_info_real cmd info : run_info self cmd info = (tt, [Invoke cmd]).
Proof. unfold run_info. rewrite real. reflexivity. Qed.

Lemma run_real cmd : run self cmd = (tt, [Invoke cmd]).
Proof. apply run_info_real. Qed.

Lemma check_label_real label info :
  check_label self label info =
  ret (in_window (active_run_from self) (active_run_to self) label).
Proof. unfold check_label. rewrite real. reflexivity. Qed.

End RealRun.

Lemma script_invoked rewrite_filename self :
  help_mode self = false ->
  invoked (events (script rewrite_filename self)) =
  concat (map snd (script_segments rewrite_filename self)).
Proof.
  intros real. unfold script. rewrite real.
  repeat (rewrite ?events_bind, ?value_bind, ?check_label_real by exact real;
          cbn beta iota zeta delta [value events ret fst snd]).
  rewrite !real. cbn [orb app]. rewrite ?orb_false_r.
  change (@snd ?A (list Event)) with (@events A).
  change (@fst ?A (list Event)) with (@value A).
  rewrite !invoked_app, !events_when, !invoked_if.
  unfold script_segments, segment, noDFFArgs_of, active.
  cbn [map snd concat app fst invoked].
  rewrite ?app_nil_r.
  destruct (in_window _ _ "prepare"); reflexivity.
Qed.

(** ** Checkpoints and the resume window *)

Lemma body_map_dsp_k6n10 self :
  help_mode self = false -> family self = "qlf_k6n10" -> nodsp self = false ->
  invoked (events (body_map_dsp self)) = map_dsp_k6n10_commands (lib_path self).
Proof.
  destruct self; cbn [help_mode family nodsp lib_path]; intros -> -> ->.
  unfold map_dsp_k6n10_commands. cbn. reflexivity.
Qed.

(** A checkpoint other than [map_dsp] that lies outside the resume window
    contributes no command to a real run. *)
Lemma skipped_checkpoint_issues_nothing rewrite_filename self label cmds :
  In (label, cmds) (script_segments rewrite_filename self) ->
  label <> "map_dsp" ->
  active self label = false ->
  cmds = [].
Proof.
  unfold script_segments. cbn [In]. intros Hin Hne Hact.
  repeat (destruct Hin as [Hin | Hin];
          [ injection Hin as <- <-;
            try (rewrite Hact; reflexivity); try congruence | ]).
  contradiction.
Qed.

Lemma split_around {A} (a b m r : list A) :
  exists before after : list A, a ++ b ++ m ++ r = before ++ m ++ after.
Proof. exists (a ++ b), r. rewrite <- app_assoc. reflexivity. Qed.

(** C2.  The body of [map_dsp] is entered whatever the resume window is:
    a real run for [qlf_k6n10] issues the ten commands of the block for
    every window, also for the window [coarse..coarse] that does not
    contain [map_dsp], where they precede the eight commands of [coarse];
    so does the invocation with [-family qlf_k6n10 -run coarse]. *)
Theorem map_dsp_ignores_resume_window :
  in_window "coarse" "coarse" "map_dsp" = false /\
  (forall (rewrite_filename : string -> string) (run_from run_to : string),
      exists before after : list string,
        invoked (events (run_script rewrite_filename (real_pass "qlf_k6n10")
                                    run_from run_to)) =
        before ++ map_dsp_k6n10_commands "+/quicklogic/" ++ after) /\
  (forall rewrite_filename : string -> string,
      invoked (events (run_script rewrite_filename (real_pass "qlf_k6n10")
                                  "coarse" "coarse")) =
      map_dsp_k6n10_commands "+/quicklogic/" ++
      [ "techmap -map +/cmp2lut.v -D LUT_WIDTH=4"; "opt_expr"; "opt_clean";
        "alumacc"; "pmuxtree"; "opt"; "memory -nomap"; "opt_clean" ]) /\
  (forall rewrite_filename : string -> string,
      invoked (trace (single_run rewrite_filename
                        ["-family"; "qlf_k6n10"; "-run"; "coarse"])) =
      map_dsp_k6n10_commands "+/quicklogic/" ++
      [ "techmap -map +/cmp2lut.v -D LUT_WIDTH=4"; "opt_expr"; "opt_clean";
        "alumacc"; "pmuxtree"; "opt"; "memory -nomap"; "opt_clean" ]).
Proof.
  split; [reflexivity|]. split; [|split].
  - intros rf run_from run_to. unfold run_script.
    rewrite script_invoked by reflexivity.
    cbn [script_segments map snd concat].
    rewrite body_map_dsp_k6n10 by reflexivity.
    apply split_around.
  - intros rf. vm_compute. reflexivity.
  - intros rf. vm_compute. reflexivity.
Qed.

(** ** Resuming a run *)

(** C3.  With the default configuration (family [qlf_k4n8]) the run split
    at [map_gates]/[map_ffs] does not issue the commands of the single
    run: the local [noDFFArgs] is filled inside the [prepare] block only,
    so the resumed invocation closes [map_ffs] with [opt] where the single
    run issues [opt -nosdff -nodffe].  The two sequences agree everywhere
    else. *)
Theorem resumed_run_loses_noDFFArgs (rewrite_filename : string -> string) :
  let full := invoked (trace (single_run rewrite_filename [])) in
  let split := invoked (trace (resumed_run rewrite_filename [])) in
  nth 38 full "" = "opt -nosdff -nodffe" /\
  nth 38 split "" = "opt" /\
  split = firstn 38 full ++ ["opt"] ++ skipn 39 full /\
  split <> full.
Proof.
  cbv zeta. split; [|split; [|split]]; try (vm_compute; reflexivity).
  intros H. apply (f_equal (fun l => nth 38 l "")) in H.
  vm_compute in H. discriminate H.
Qed.

(** The checkpoint bodies read the flags of the pass, not its window. *)
Lemma bodies_ignore_window (rewrite_filename : string -> string)
    (self : SynthQuickLogicPass) (a b : string) :
  let p := started self a b in
  let q := started self "" "" in
  body_begin p = body_begin q /\
  (forall args, body_prepare p args = body_prepare q args) /\
  body_map_dsp p = body_map_dsp q /\
  (forall args, body_coarse p args = body_coarse q args) /\
  body_map_bram p = body_map_bram q /\
  (forall args, body_map_ffram p args = body_map_ffram q args) /\
  (forall args, body_map_gates p args = body_map_gates q args) /\
  (forall args, body_map_ffs p args = body_map_ffs q args) /\
  body_map_luts rewrite_filename p = body_map_luts rewrite_filename q /\
  body_map_cells p = body_map_cells q /\
  body_check p = body_check q /\
  body_iomap p = body_iomap q /\
  body_finalize p = body_finalize q /\
  body_blif p = body_blif q /\
  body_edif p = body_edif q /\
  body_verilog p = body_verilog q.
Proof. cbv zeta. repeat split; reflexivity. Qed.

(** Where the fragment is empty and [map_dsp] issues nothing, splitting the
    run at [map_gates]/[map_ffs] issues the commands of the single run. *)
Lemma resumed_run_agrees (rewrite_filename : string -> string) (self : SynthQuickLogicPass) :
  value (body_prepare (started self "" "") "") = "" ->
  events (body_map_dsp (started self "" "")) = [] ->
  invoked (events (run_script rewrite_filename self "begin" "map_gates")) ++
  invoked (events (run_script rewrite_filename self "map_ffs" "verilog")) =
  invoked (events (run_script rewrite_filename self "" "")).
Proof.
  intros Hargs Hdsp. unfold run_script.
  fold (started self "begin" "map_gates") (started self "map_ffs" "verilog")
       (started self "" "").
  rewrite !script_invoked by reflexivity.
  unfold script_segments, segment, noDFFArgs_of, active.
  cbn [map snd concat].
  change (active_run_from (started self ?a ?b)) with a.
  change (active_run_to (started self ?a ?b)) with b.
  repeat match goal with
         | |- context [in_window ?a ?b ?c] =>
             let v := eval vm_compute in (in_window a b c) in
             change (in_window a b c) with v
         end.
  cbn [andb].
  change (family (started self ?a ?b)) with (family self).
  change (inferBram (started self ?a ?b)) with (inferBram self).
  change (edif_file (started self ?a ?b)) with (edif_file self).
  destruct (bodies_ignore_window rewrite_filename self "begin" "map_gates")
    as (B1 & B2 & B3 & B4 & B5 & B6 & B7 & _).
  destruct (bodies_ignore_window rewrite_filename self "map_ffs" "verilog")
    as (_ & _ & C3 & _ & _ & _ & _ & C8 & C9 & C10 & C11 & C12 & C13 & C14 & C15 & C16).
  cbv zeta in *.
  rewrite B1, B2, B3, B4, B5, B6, B7, C3, C8, C9, C10, C11, C12, C13, C14, C15, C16.
  rewrite Hargs, Hdsp. cbn [invoked app].
  rewrite <- !app_assoc. cbn [app]. reflexivity.
Qed.

(** ** DSP inference *)

(** C4.  A real run of [map_dsp] for [qlf_k6n10f] with DSP inference on
    issues, in this order: the width reduction and the MACC pass, the
    20x18 rule and the re-typing of the soft multipliers left over, the
    10x9 rule and the same re-typing, the cell mapping, [ql_dsp_simd], the
    final mapping and [ql_dsp_io_regs].  The rule list is strictly
    descending in both maximum operand widths. *)
Theorem map_dsp_k6n10f_rules_in_order (self : SynthQuickLogicPass) :
  help_mode self = false ->
  family self = "qlf_k6n10f" ->
  nodsp self = false ->
  StronglySorted wider dsp_rules /\
  invoked (events (body_map_dsp self)) =
  [ "wreduce t:$mul";
    "ql_dsp_macc" +:+ use_dsp_cfg_params self;
    "techmap -map +/mul2dsp.v -D DSP_A_MAXWIDTH=20 -D DSP_B_MAXWIDTH=18 " +:+
    "-D DSP_A_MINWIDTH=11 -D DSP_B_MINWIDTH=10 -D DSP_NAME=$__QL_MUL20X18";
    "chtype -set $mul t:$__soft_mul";
    "techmap -map +/mul2dsp.v -D DSP_A_MAXWIDTH=10 -D DSP_B_MAXWIDTH=9 " +:+
    "-D DSP_A_MINWIDTH=4 -D DSP_B_MINWIDTH=4 -D DSP_NAME=$__QL_MUL10X9";
    "chtype -set $mul t:$__soft_mul";
    "techmap -map " +:+ lib_path self +:+ "qlf_k6n10f/dsp_map.v -D USE_DSP_CFG_PARAMS=" +:+
    (if empty (use_dsp_cfg_params self) then "0" else "1");
    "ql_dsp_simd";
    "techmap -map " +:+ lib_path self +:+ "qlf_k6n10f/dsp_final_map.v";
    "ql_dsp_io_regs" ].
Proof.
  destruct self as [hm rf rt top edif blif fam cur ver cfg lib nd ia ib bt ao a9 nf ns].
  cbn [help_mode family nodsp lib_path use_dsp_cfg_params]. intros -> -> ->. split.
  - repeat constructor; cbn; lia.
  - destruct cfg as [|c cfg]; vm_compute; reflexivity.
Qed.

Lemma map_dsp_k6n10f_rules_in_order_witness :
  invoked (events (body_map_dsp (real_pass "qlf_k6n10f"))) =
  [ "wreduce t:$mul";
    "ql_dsp_macc";
    "techmap -map +/mul2dsp.v -D DSP_A_MAXWIDTH=20 -D DSP_B_MAXWIDTH=18 -D DSP_A_MINWIDTH=11 -D DSP_B_MINWIDTH=10 -D DSP_NAME=$__QL_MUL20X18";
    "chtype -set $mul t:$__soft_mul";
    "techmap -map +/mul2dsp.v -D DSP_A_MAXWIDTH=10 -D DSP_B_MAXWIDTH=9 -D DSP_A_MINWIDTH=4 -D DSP_B_MINWIDTH=4 -D DSP_NAME=$__QL_MUL10X9";
    "chtype -set $mul t:$__soft_mul";
    "techmap -map +/quicklogic/qlf_k6n10f/dsp_map.v -D USE_DSP_CFG_PARAMS=0";
    "ql_dsp_simd";
    "techmap -map +/quicklogic/qlf_k6n10f/dsp_final_map.v";
    "ql_dsp_io_regs" ].
Proof.
  exact (proj2 (map_dsp_k6n10f_rules_in_order (real_pass "qlf_k6n10f")
                  eq_refl eq_refl eq_refl)).
Defined.

(** ** Specialized BRAM variants *)

Lemma bram_types_chtypes_real (self : SynthQuickLogicPass) :
  help_mode self = false ->
  invoked (events (bram_types_chtypes self)) = bram_types_commands.
Proof.
  destruct self as [hm rf rt top edif blif fam cur ver cfg lib nd ia ib bt ao a9 nf ns].
  cbn [help_mode]. intros ->. vm_compute. reflexivity.
Qed.

(** C1, as the code has it.  In a real run of [map_bram] for [qlf_k6n10f]
    with [-bram_types], the five memory mapping commands are followed by
    2644 re-typing commands: for the cells that are not inferred, 108
    non-split ones (6 x 6 width pairs, three variants) and 1875 split ones
    (5^4 width tuples, three variants); for the inferred cells, 36
    non-split and 625 split ones of the BRAM variant.  The cell types they
    set follow the naming scheme, in the order of the loops. *)
Theorem bram_types_enumeration (self : SynthQuickLogicPass) :
  help_mode self = false ->
  family self = "qlf_k6n10f" ->
  bramTypes self = true ->
  let cmds := invoked (events (body_map_bram self)) in
  cmds = map_bram_k6n10f_commands (lib_path self) ++ bram_types_commands /\
  Z.of_nat (length bram_types_commands) = 2644%Z /\
  count (fun c => nonsplit_retyping c && negb (selects_inferred c)) bram_types_commands = 108%Z /\
  count (fun c => split_retyping c && negb (selects_inferred c)) bram_types_commands = 1875%Z /\
  count (fun c => nonsplit_retyping c && selects_inferred c) bram_types_commands = 36%Z /\
  count (fun c => split_retyping c && selects_inferred c) bram_types_commands = 625%Z /\
  map retype_target bram_types_commands =
    nonsplit_types [BRAM; FIFO_ASYNC; FIFO_SYNC] ++
    split_types [BRAM; FIFO_ASYNC; FIFO_SYNC] ++
    nonsplit_types [BRAM] ++ split_types [BRAM] /\
  firstn 3 (skipn 66 bram_types_commands) =
    [ "chtype -set TDP36K_BRAM_A_X9_B_X18_nonsplit t:TDP36K a:is_inferred=0 %i " +:+
      "a:is_fifo=0 %i a:port_a_dwidth=9 %i a:port_b_dwidth=18 %i";
      "chtype -set TDP36K_FIFO_ASYNC_A_X9_B_X18_nonsplit t:TDP36K a:is_inferred=0 %i " +:+
      "a:is_fifo=1 %i a:sync_fifo=0 %i a:port_a_dwidth=9 %i a:port_b_dwidth=18 %i";
      "chtype -set TDP36K_FIFO_SYNC_A_X9_B_X18_nonsplit t:TDP36K a:is_inferred=0 %i " +:+
      "a:is_fifo=1 %i a:sync_fifo=1 %i a:port_a_dwidth=9 %i a:port_b_dwidth=18 %i" ].
Proof.
  intros real fam bt. cbv zeta. split.
  - unfold body_map_bram.
    repeat (rewrite ?events_bind, ?invoked_app, ?events_when, ?invoked_if).
    rewrite bram_types_chtypes_real by exact real.
    rewrite !run_info_real, !run_real by exact real.
    rewrite real, fam, bt. generalize bram_types_commands. intros l. cbn. reflexivity.
  - repeat (split; [vm_compute; reflexivity|]). vm_compute. reflexivity.
Qed.

Lemma bram_types_enumeration_witness :
  invoked (events (body_map_bram (set_bramTypes true (real_pass "qlf_k6n10f")))) =
  map_bram_k6n10f_commands "+/quicklogic/" ++ bram_types_commands.
Proof.
  exact (proj1 (bram_types_enumeration (set_bramTypes true (real_pass "qlf_k6n10f"))
                  eq_refl eq_refl eq_refl)).
Defined.

(** C1 as the claim states it fails: neither all the split re-typing
    commands (2500) nor those of the three variants (1875) are 9375, and
    the non-split ones are 144 with the inferred cells counted in. *)
Lemma bram_types_split_count_not_9375 :
  let cmds := invoked (events (body_map_bram (set_bramTypes true (real_pass "qlf_k6n10f")))) in
  count split_retyping cmds = 2500%Z /\
  count (fun c => split_retyping c && negb (selects_inferred c)) cmds = 1875%Z /\
  count nonsplit_retyping cmds = 144%Z /\
  ~ (count nonsplit_retyping cmds = 108%Z /\ count split_retyping cmds = 9375%Z).
Proof.
  cbv zeta. split; [|split; [|split]]; try (vm_compute; reflexivity).
  intros [_ H]. vm_compute in H. discriminate H.
Qed.

(** ** The option loop *)

Lemma flag_option_on_pass (arg : string) (st st' : Parsed) :
  flag_option arg st = Some st' ->
  exists f, st' = on_pass f st /\ forall p, currmodule (f p) = currmodule p.
Proof.
  unfold flag_option.
  repeat (destruct (arg == _); [intros [= <-]; eexists; split; [reflexivity|reflexivity] |]).
  discriminate.
Qed.

Lemma value_option_currmodule (arg val : string) (st st' : Parsed) :
  value_option arg val st = Some st' ->
  currmodule (pass st') = currmodule (pass st).
Proof.
  unfold value_option.
  destruct (arg == "-run"); [destruct (find ":" val); intros [= <-]; reflexivity|].
  repeat (destruct (arg == _); [intros [= <-]; reflexivity|]).
  discriminate.
Qed.

Lemma value_option_window (arg val : string) (st st' : Parsed) :
  arg <> "-run" ->
  value_option arg val st = Some st' ->
  run_from st' = run_from st /\ run_to st' = run_to st.
Proof.
  intros Hne. unfold value_option.
  destruct (String.eqb_spec arg "-run") as [->|_]; [contradiction|].
  repeat (destruct (arg == _); [intros [= <-]; split; reflexivity|]).
  discriminate.
Qed.

(** What every option of [args] leaves alone, the whole loop leaves alone. *)
Lemma parse_args_keeps {T} (f : Parsed -> T) (args : list string) :
  (forall arg val st st', In arg args -> value_option arg val st = Some st' -> f st' = f st) ->
  (forall arg st st', flag_option arg st = Some st' -> f st' = f st) ->
  forall argidx st, f (fst (parse_args args argidx st)) = f st.
Proof.
  intros Hval Hflag.
  assert (H : forall n args', length args' <= n -> incl args' args ->
              forall argidx st, f (fst (parse_args args' argidx st)) = f st).
  { induction n as [|n IH]; intros [|arg rest] Hlen Hincl argidx st; cbn [parse_args fst];
      try reflexivity; cbn [length] in Hlen; [lia|].
    assert (Hrest : incl rest args) by (intros x Hx; apply Hincl; right; exact Hx).
    assert (Hflags : f (fst match flag_option arg st with
                            | Some st' => parse_args rest (argidx + 1) st'
                            | None => (st, argidx)
                            end) = f st).
    { destruct (flag_option arg st) as [st'|] eqn:E; [|reflexivity].
      rewrite IH by (trivial; lia). eapply Hflag; exact E. }
    destruct rest as [|val rest']; [exact Hflags|].
    destruct (value_option arg val st) as [st'|] eqn:E; [|exact Hflags].
    rewrite IH.
    - eapply Hval; [|exact E]. apply Hincl. left. reflexivity.
    - cbn [length] in Hlen. lia.
    - intros x Hx. apply Hrest. right. exact Hx. }
  intros argidx st. apply (H (length args)); [lia | apply incl_refl].
Qed.

(** [currmodule] is empty when the option loop ends, whatever the
    arguments are: no option assigns it. *)
Lemma parse_command_currmodule (self : SynthQuickLogicPass) (args : list string) (d : Design) :
  currmodule (pass (fst (parse_command self args d))) = "".
Proof.
  unfold parse_command.
  rewrite (parse_args_keeps (fun st => currmodule (pass st))); [reflexivity| |].
  - intros arg val st st' _. apply value_option_currmodule.
  - intros arg st st' H. apply flag_option_on_pass in H as (g & -> & Hg). apply Hg.
Qed.

(** Without a [-run] option the window ends stay empty. *)
Lemma parse_command_no_run (self : SynthQuickLogicPass) (args : list string) (d : Design) :
  ~ In "-run" (tl args) ->
  run_from (fst (parse_command self args d)) = "" /\
  run_to (fst (parse_command self args d)) = "".
Proof.
  intros Hno. unfold parse_command.
  assert (Hv : forall arg val st st', In arg (tl args) ->
               value_option arg val st = Some st' ->
               (run_from st', run_to st') = (run_from st, run_to st)).
  { intros arg val st st' Hin E.
    destruct (value_option_window arg val st st') as [-> ->];
      [intros -> ; contradiction | exact E | reflexivity]. }
  assert (Hf : forall arg st st', flag_option arg st = Some st' ->
               (run_from st', run_to st') = (run_from st, run_to st)).
  { intros arg st st' E. apply flag_option_on_pass in E as (g & -> & _). reflexivity. }
  match goal with
  | |- context [parse_args _ ?i ?s] =>
      pose proof (parse_args_keeps _ _ Hv Hf i s) as H
  end.
  injection H as H1 H2. split; [exact H1 | exact H2].
Qed.

(** ** Argument lists that hold an option *)

(** The index only counts: the state the loop ends in does not depend on it. *)
Lemma parse_args_index (args : list string) (argidx : nat) (st : Parsed) :
  parse_args args argidx st =
  (fst (parse_args args 0 st), argidx + snd (parse_args args 0 st)).
Proof.
  revert argidx st.
  assert (H : forall n args, length args <= n -> forall argidx st,
              parse_args args argidx st =
              (fst (parse_args args 0 st), argidx + snd (parse_args args 0 st))).
  { induction n as [|n IH]; intros [|arg rest] Hlen argidx st;
      cbn [length] in Hlen; try lia;
      try (cbn [parse_args fst snd]; f_equal; lia).
    cbn [parse_args].
    assert (Hflags :
              match flag_option arg st with
              | Some st' => parse_args rest (argidx + 1) st'
              | None => (st, argidx)
              end =
              (fst match flag_option arg st with
                   | Some st' => parse_args rest (0 + 1) st'
                   | None => (st, 0)
                   end,
               argidx + snd match flag_option arg st with
                            | Some st' => parse_args rest (0 + 1) st'
                            | None => (st, 0)
                            end)).
    { destruct (flag_option arg st) as [st'|]; cbn [fst snd]; [|f_equal; lia].
      rewrite (IH rest ltac:(lia) (argidx + 1)), (IH rest ltac:(lia) (0 + 1)).
      cbn [fst snd]. f_equal. lia. }
    destruct rest as [|val rest']; [exact Hflags|].
    destruct (value_option arg val st) as [st'|]; [|exact Hflags].
    cbn [length] in Hlen.
    rewrite (IH rest' ltac:(lia) (argidx + 2)), (IH rest' ltac:(lia) (0 + 2)).
    cbn [fst snd]. f_equal. lia. }
  intros argidx st. apply (H (length args)). lia.
Qed.

Lemma parse_args_state (args : list string) (i j : nat) (st : Parsed) :
  fst (parse_args args i st) = fst (parse_args args j st).
Proof. rewrite (parse_args_index args i), (parse_args_index args j). reflexivity. Qed.

Lemma value_option_taken (arg val : string) (st : Parsed) :
  existsb (String.eqb arg) value_option_names = true ->
  exists st' : Parsed, value_option arg val st = Some st'.
Proof.
  unfold value_option_names, value_option. cbn [existsb].
  destruct (arg == "-run"); [destruct (find ":" val); eexists; reflexivity|].
  repeat (destruct (arg == _); [eexists; reflexivity|]).
  discriminate.
Qed.

Lemma value_option_not_taken (arg val : string) (st : Parsed) :
  existsb (String.eqb arg) value_option_names = false ->
  value_option arg val st = None.
Proof.
  unfold value_option_names, value_option. cbn [existsb].
  repeat (destruct (arg == _); [discriminate|]). reflexivity.
Qed.

Lemma flag_option_taken (arg : string) (st : Parsed) :
  existsb (String.eqb arg) flag_option_names = true ->
  exists st' : Parsed, flag_option arg st = Some st'.
Proof.
  unfold flag_option_names, flag_option. cbn [existsb].
  repeat (destruct (arg == _); [eexists; reflexivity|]).
  discriminate.
Qed.

(** The loop reads a list of options to its end and goes on behind it. *)
Lemma parse_args_app (pre rest : list string) :
  options_only pre = true ->
  forall (argidx : nat) (st : Parsed),
    parse_args (pre ++ rest) argidx st =
    parse_args rest (argidx + length pre) (fst (parse_args pre argidx st)).
Proof.
  assert (H : forall n pre, length pre <= n -> options_only pre = true ->
              forall argidx st,
                parse_args (pre ++ rest) argidx st =
                parse_args rest (argidx + length pre) (fst (parse_args pre argidx st))).
  { induction n as [|n IH]; intros [|arg pre'] Hlen Hopt argidx st;
      cbn [length] in Hlen; try lia;
      try (cbn [app length parse_args fst]; rewrite Nat.add_0_r; reflexivity).
    cbn [options_only] in Hopt.
    destruct (existsb (String.eqb arg) value_option_names) eqn:Hv.
    - destruct pre' as [|val pre'']; [discriminate|].
      destruct (value_option_taken arg val st Hv) as [st' E].
      cbn [app parse_args length]. rewrite E.
      cbn [length] in Hlen. rewrite (IH pre'' ltac:(lia) Hopt).
      f_equal. lia.
    - apply andb_true_iff in Hopt as [Hf Hopt].
      destruct (flag_option_taken arg st Hf) as [st' E].
      assert (Hnone : forall val, value_option arg val st = None)
        by (intros val; apply value_option_not_taken, Hv).
      cbn [app length].
      assert (Hl : parse_args (arg :: pre' ++ rest) argidx st =
                   parse_args (pre' ++ rest) (argidx + 1) st').
      { cbn [parse_args]. rewrite E.
        destruct (pre' ++ rest) as [|val r]; [reflexivity|]. rewrite Hnone. reflexivity. }
      assert (Hr : parse_args (arg :: pre') argidx st = parse_args pre' (argidx + 1) st').
      { cbn [parse_args]. rewrite E.
        destruct pre' as [|val r]; [reflexivity|]. rewrite Hnone. reflexivity. }
      rewrite Hl, Hr, (IH pre' ltac:(lia) Hopt). f_equal. lia. }
  intros Hopt argidx st. apply (H (length pre)); [lia | exact Hopt].
Qed.

(** A value option in option position takes the argument behind it. *)
Lemma parse_args_value (opt val : string) (rest : list string) (argidx : nat)
    (st st' : Parsed) :
  value_option opt val st = Some st' ->
  parse_args (opt :: val :: rest) argidx st = parse_args rest (argidx + 2) st'.
Proof. intros E. cbn [parse_args]. rewrite E. reflexivity. Qed.

Lemma parse_args_flag (flag : string) (rest : list string) (argidx : nat)
    (st st' : Parsed) :
  existsb (String.eqb flag) value_option_names = false ->
  flag_option flag st = Some st' ->
  parse_args (flag :: rest) argidx st = parse_args rest (argidx + 1) st'.
Proof.
  intros Hv E. cbn [parse_args]. rewrite E.
  destruct rest as [|val r]; [reflexivity|].
  rewrite (value_option_not_taken _ _ _ Hv). reflexivity.
Qed.

(** ** The entry point *)

Lemma unsupported_family_test (fam : string) :
  ~ In fam supported_families ->
  (fam != "pp3") && (fam != "qlf_k4n8") && (fam != "qlf_k6n10") && (fam != "qlf_k6n10f") = true.
Proof.
  intros Hno. unfold supported_families in Hno. cbn [In] in Hno.
  destruct (String.eqb_spec fam "pp3"); [subst; exfalso; apply Hno; auto 6|].
  destruct (String.eqb_spec fam "qlf_k4n8"); [subst; exfalso; apply Hno; auto 6|].
  destruct (String.eqb_spec fam "qlf_k6n10"); [subst; exfalso; apply Hno; auto 6|].
  destruct (String.eqb_spec fam "qlf_k6n10f"); [subst; exfalso; apply Hno; auto 6|].
  reflexivity.
Qed.

Lemma supported_family_test (fam : string) :
  In fam supported_families ->
  (fam != "pp3") && (fam != "qlf_k4n8") && (fam != "qlf_k6n10") && (fam != "qlf_k6n10f") = false.
Proof.
  unfold supported_families. cbn [In].
  intros [<-|[<-|[<-|[<-|[]]]]]; reflexivity.
Qed.

Lemma script_value (rewrite_filename : string -> string) (self : SynthQuickLogicPass) :
  help_mode self = false -> value (script rewrite_filename self) = self.
Proof.
  intros real. unfold script. rewrite real.
  repeat (rewrite value_bind; cbv beta). reflexivity.
Qed.

Section ExecuteFacts.

Variable rewrite_filename : string -> string.
Variable extra_args : list string -> nat -> Design -> string + Design.
Variable self : SynthQuickLogicPass.
Variable args : list string.
Variable w : World.

Let st := fst (parse_command self args (design w)).
Let argidx := snd (parse_command self args (design w)).

(** When the preconditions hold, [execute] returns, and this is the world
    it leaves. *)
Lemma execute_done (d : Design) :
  extra_args args argidx (design w) = inr d ->
  full_selection d = true ->
  In (family (pass st)) supported_families ->
  let p := resolve_flags (pass st) in
  execute rewrite_filename extra_args self args w =
  (Done (started p (run_from st) (run_to st)),
   {| design := if needs_delay_target p d then scratchpad_set_int "abc9.D" 500 d else d;
      warnings := if needs_delay_target p d then warnings w ++ [delay_target_warning]
                  else warnings w;
      trace := trace w ++ events (run_script rewrite_filename p (run_from st) (run_to st)) |}).
Proof.
  intros Hextra Hsel Hfam. subst st argidx. cbv zeta.
  unfold execute, mbind, get_design.
  destruct (parse_command self args (design w)) as [st idx]. cbn [fst snd] in *.
  rewrite Hextra. unfold put_design. cbn [design]. rewrite Hsel. cbn [negb mret].
  rewrite (supported_family_test _ Hfam).
  fold (resolve_flags (pass st)). fold (needs_delay_target (resolve_flags (pass st)) d).
  unfold perform.
  replace (value (run_script rewrite_filename (resolve_flags (pass st)) (run_from st) (run_to st)))
    with (started (resolve_flags (pass st)) (run_from st) (run_to st))
    by (symmetry; apply script_value; reflexivity).
  destruct (needs_delay_target (resolve_flags (pass st)) d); reflexivity.
Qed.

(** C6.  A family outside the four supported ones ends [execute] with a
    fatal error and leaves the trace as it was: no event of any checkpoint
    is added.  When the leftover arguments are accepted and the design is
    fully selected, the error is the invalid family error. *)
Theorem execute_invalid_family :
  ~ In (family (pass st)) supported_families ->
  exists msg : string,
    fst (execute rewrite_filename extra_args self args w) = Fatal msg /\
    trace (snd (execute rewrite_filename extra_args self args w)) = trace w /\
    (forall d : Design,
        extra_args args argidx (design w) = inr d ->
        full_selection d = true ->
        msg = "Invalid family specified: '" +:+ family (pass st) +:+ "'" +:+ nl).
Proof.
  intros Hfam. subst st argidx.
  unfold execute, mbind, get_design.
  destruct (parse_command self args (design w)) as [st idx]. cbn [fst snd] in *.
  destruct (extra_args args idx (design w)) as [msg|d] eqn:Hextra.
  - exists msg. repeat split. intros d' [=].
  - unfold put_design. cbn [design].
    destruct (full_selection d) eqn:Hsel; cbn [negb mret].
    + rewrite (unsupported_family_test _ Hfam). eexists. repeat split.
    + eexists. repeat split. intros d' [= <-]. congruence.
Qed.

(** C8.  After the option loop, [execute] turns [nosdff] on for
    [qlf_k4n8] and keeps the parsed value for the other families; the
    family itself is not changed. *)
Theorem execute_forces_nosdff_for_k4n8 (d : Design) :
  extra_args args argidx (design w) = inr d ->
  full_selection d = true ->
  In (family (pass st)) supported_families ->
  exists (p : SynthQuickLogicPass) (w' : World),
    execute rewrite_filename extra_args self args w = (Done p, w') /\
    family p = family (pass st) /\
    nosdff p = (if family (pass st) == "qlf_k4n8" then true else nosdff (pass st)).
Proof.
  intros Hextra Hsel Hfam.
  rewrite (execute_done d Hextra Hsel Hfam). cbv zeta.
  eexists _, _. split; [reflexivity|].
  unfold started, resolve_flags.
  destruct (family (pass st) == "qlf_k4n8"); split; reflexivity.
Qed.

(** C9, as the code has it.  Once the preconditions hold: when ABC9 is in
    use and the [abc9.D] entry reads as 0 (unset, or set to 0), [execute]
    warns, stores 500 and goes on to the script; otherwise it leaves the
    design and the warnings as they are. *)
Theorem execute_delay_target (d : Design) :
  extra_args args argidx (design w) = inr d ->
  full_selection d = true ->
  In (family (pass st)) supported_families ->
  exists (p : SynthQuickLogicPass) (w' : World),
    execute rewrite_filename extra_args self args w = (Done p, w') /\
    if abc9 (pass st) && (scratchpad_get_int d "abc9.D" 0 =? 0)%Z
    then design w' = scratchpad_set_int "abc9.D" 500 d /\
         scratchpad_int (design w') !! "abc9.D" = Some 500%Z /\
         warnings w' = warnings w ++ [delay_target_warning]
    else design w' = d /\ warnings w' = warnings w.
Proof.
  intros Hextra Hsel Hfam.
  rewrite (execute_done d Hextra Hsel Hfam). cbv zeta.
  eexists _, _. split; [reflexivity|]. cbn [design warnings].
  replace (needs_delay_target (resolve_flags (pass st)) d)
    with (abc9 (pass st) && (scratchpad_get_int d "abc9.D" 0 =? 0)%Z)
    by (unfold needs_delay_target, resolve_flags;
        destruct (family (pass st) == "qlf_k4n8"); reflexivity).
  destruct (abc9 (pass st) && (scratchpad_get_int d "abc9.D" 0 =? 0)%Z).
  - repeat split. unfold scratchpad_set_int. cbn [scratchpad_int].
    apply lookup_insert_eq.
  - split; reflexivity.
Qed.

End ExecuteFacts.

Lemma execute_invalid_family_witness :
  exists msg : string,
    fst (execute id no_extra_args new_pass [command_name; "-family"; "xc7"]
                 (fresh empty_design)) = Fatal msg /\
    trace (snd (execute id no_extra_args new_pass [command_name; "-family"; "xc7"]
                        (fresh empty_design))) = [] /\
    (forall d : Design,
        no_extra_args [command_name; "-family"; "xc7"] 3 empty_design = inr d ->
        full_selection d = true ->
        msg = "Invalid family specified: '" +:+ "xc7" +:+ "'" +:+ nl).
Proof.
  apply (execute_invalid_family id no_extra_args new_pass
           [command_name; "-family"; "xc7"] (fresh empty_design)).
  vm_compute. intros [H|[H|[H|[H|[]]]]]; discriminate H.
Defined.

Lemma execute_forces_nosdff_for_k4n8_witness :
  exists (p : SynthQuickLogicPass) (w' : World),
    execute id no_extra_args new_pass [command_name; "-family"; "qlf_k4n8"]
            (fresh empty_design) = (Done p, w') /\
    family p = "qlf_k4n8" /\
    nosdff p = true.
Proof.
  apply (execute_forces_nosdff_for_k4n8 id no_extra_args new_pass
           [command_name; "-family"; "qlf_k4n8"] (fresh empty_design) empty_design).
  - reflexivity.
  - reflexivity.
  - vm_compute. auto.
Defined.

Lemma execute_delay_target_witness :
  exists (p : SynthQuickLogicPass) (w' : World),
    execute id no_extra_args new_pass [command_name; "-family"; "pp3"]
            (fresh empty_design) = (Done p, w') /\
    design w' = scratchpad_set_int "abc9.D" 500 empty_design /\
    scratchpad_int (design w') !! "abc9.D" = Some 500%Z /\
    warnings w' = [delay_target_warning].
Proof.
  apply (execute_delay_target id no_extra_args new_pass
           [command_name; "-family"; "pp3"] (fresh empty_design) empty_design).
  - reflexivity.
  - reflexivity.
  - vm_compute. auto.
Defined.

(** C9 as the claim states it fails on both sides.  With [-no_abc9] and
    the entry unset, [execute] returns without storing a value and without
    a warning; with the entry set to 0, [execute] overwrites it with 500
    and warns. *)
Lemma delay_target_claim_fails :
  let unset := execute id no_extra_args new_pass [command_name; "-no_abc9"]
                       (fresh empty_design) in
  let zero := execute id no_extra_args new_pass [command_name]
                      (fresh zero_delay_design) in
  (scratchpad_int empty_design !! "abc9.D" = None /\
   (exists p : SynthQuickLogicPass, fst unset = Done p) /\
   scratchpad_int (design (snd unset)) !! "abc9.D" = None /\
   warnings (snd unset) = []) /\
  (scratchpad_int zero_delay_design !! "abc9.D" = Some 0%Z /\
   (exists p : SynthQuickLogicPass, fst zero = Done p) /\
   scratchpad_int (design (snd zero)) !! "abc9.D" = Some 500%Z /\
   warnings (snd zero) = [delay_target_warning]).
Proof.
  cbv zeta. split; (split; [|split; [|split]]);
    try (vm_compute; reflexivity); vm_compute; eexists; reflexivity.
Qed.

(** ** The resume window option *)

Lemma find_append (c : ascii) (s t : string) :
  find c s = None -> find c (s +:+ String c t) = Some (String.length s).
Proof.
  induction s as [|a s IH]; simpl.
  - intros _. rewrite Ascii.eqb_refl. reflexivity.
  - destruct (Ascii.eqb a c); [discriminate|].
    destruct (find c s); [discriminate|]. intros _. rewrite IH by reflexivity. reflexivity.
Qed.

Lemma substr_to_append (s t : string) : substr_to (String.length s) (s +:+ t) = s.
Proof.
  induction s as [|a s IH]; simpl.
  - destruct t; reflexivity.
  - rewrite IH. reflexivity.
Qed.

Lemma substr_from_append (c : ascii) (s t : string) :
  substr_from (String.length s + 1) (s +:+ String c t) = t.
Proof.
  induction s as [|a s IH]; simpl.
  - destruct t; reflexivity.
  - exact IH.
Qed.

(** A [-run] option in option position decides the window ends when no
    [-run] follows it. *)
Lemma parse_command_run (self : SynthQuickLogicPass) (cmd val from to : string)
    (before after : list string) (d : Design) :
  options_only before = true ->
  ~ In "-run" after ->
  (forall st : Parsed,
      value_option "-run" val st = Some {| pass := pass st; run_from := from; run_to := to |}) ->
  run_from (fst (parse_command self (cmd :: before ++ "-run" :: val :: after) d)) = from /\
  run_to (fst (parse_command self (cmd :: before ++ "-run" :: val :: after) d)) = to.
Proof.
  intros Hbefore Hafter Hrun. unfold parse_command. cbn [tl].
  rewrite (parse_args_app before _ Hbefore), (parse_args_value _ _ _ _ _ _ (Hrun _)).
  assert (Hv : forall arg val st st', In arg after ->
               value_option arg val st = Some st' ->
               (run_from st', run_to st') = (run_from st, run_to st)).
  { intros arg v st st' Hin E.
    destruct (value_option_window arg v st st') as [-> ->];
      [intros -> ; contradiction | exact E | reflexivity]. }
  assert (Hf : forall arg st st', flag_option arg st = Some st' ->
               (run_from st', run_to st') = (run_from st, run_to st)).
  { intros arg st st' E. apply flag_option_on_pass in E as (g & -> & _). reflexivity. }
  match goal with
  | |- context [parse_args after ?i ?s] =>
      pose proof (parse_args_keeps _ _ Hv Hf i s) as H
  end.
  injection H as H1 H2. split; [exact H1 | exact H2].
Qed.

Lemma active_started (p : SynthQuickLogicPass) (from to label : string) :
  active (started p from to) label = in_window from to label.
Proof. reflexivity. Qed.

Lemma position_not_empty (s : string) (n : nat) :
  position checkpoints s = Some n -> empty s = false.
Proof. destruct s; [vm_compute; discriminate | reflexivity]. Qed.

Lemma in_window_positions (from to label : string) (i j k : nat) :
  position checkpoints from = Some i ->
  position checkpoints to = Some j ->
  position checkpoints label = Some k ->
  in_window from to label = Nat.leb i k && Nat.leb k j.
Proof.
  intros Hfrom Hto Hlabel. unfold in_window, window_lo, window_hi.
  rewrite (position_not_empty _ _ Hfrom), (position_not_empty _ _ Hto), Hfrom, Hto, Hlabel.
  reflexivity.
Qed.

Lemma in_window_single (name label : string) :
  In name checkpoints -> In label checkpoints ->
  (in_window name name label = true <-> label = name).
Proof.
  intros Hname Hlabel. unfold checkpoints in Hname, Hlabel. cbn [In] in Hname, Hlabel.
  repeat (destruct Hname as [<-|Hname]; [|]); try contradiction;
    repeat (destruct Hlabel as [<-|Hlabel]; [|]); try contradiction;
      (split; [intros H; vm_compute in H; first [reflexivity | discriminate H]
              | intros [=]; reflexivity]).
Qed.

Lemma in_window_full (label : string) :
  In label checkpoints -> in_window "" "" label = true.
Proof.
  intros Hlabel. unfold checkpoints in Hlabel. cbn [In] in Hlabel.
  repeat (destruct Hlabel as [<-|Hlabel]; [reflexivity|]). contradiction.
Qed.

(** C10.  In an argument list, [-run name] without a colon sets both
    window ends to [name], [-run from:to] sets them to [from] and [to], and
    without [-run] both ends stay empty; this holds with other options
    before and behind the [-run].  [execute] starts the script with these
    ends.  With both ends on one checkpoint, that checkpoint is the one in
    the window, and the others (but [map_dsp], see C2) issue no command;
    with two ends, no checkpoint before the first or behind the second is
    in the window and every checkpoint from the first on and before the
    second is (the statement leaves open whether the checkpoint of the
    second end itself is); with empty ends every checkpoint is in the
    window. *)
Theorem run_option_sets_window :
  (forall (self : SynthQuickLogicPass) (cmd name : string) (before after : list string)
          (d : Design),
      options_only before = true -> ~ In "-run" after ->
      find ":" name = None ->
      let st := fst (parse_command self (cmd :: before ++ "-run" :: name :: after) d) in
      run_from st = name /\ run_to st = name) /\
  (forall (self : SynthQuickLogicPass) (cmd from to : string) (before after : list string)
          (d : Design),
      options_only before = true -> ~ In "-run" after ->
      find ":" from = None ->
      let st := fst (parse_command self
                       (cmd :: before ++ "-run" :: (from +:+ ":" +:+ to) :: after) d) in
      run_from st = from /\ run_to st = to) /\
  (forall (self : SynthQuickLogicPass) (args : list string) (d : Design),
      ~ In "-run" (tl args) ->
      let st := fst (parse_command self args d) in
      run_from st = "" /\ run_to st = "") /\
  (forall (rewrite_filename : string -> string)
          (extra_args : list string -> nat -> Design -> string + Design)
          (self : SynthQuickLogicPass) (args : list string) (w : World) (d : Design),
      let st := fst (parse_command self args (design w)) in
      extra_args args (snd (parse_command self args (design w))) (design w) = inr d ->
      full_selection d = true ->
      In (family (pass st)) supported_families ->
      exists (p : SynthQuickLogicPass) (w' : World),
        execute rewrite_filename extra_args self args w = (Done p, w') /\
        active_run_from p = run_from st /\ active_run_to p = run_to st /\
        invoked (trace w') =
          invoked (trace w) ++ concat (map snd (script_segments rewrite_filename p)) /\
        (forall (label : string) (cmds : list string),
            In (label, cmds) (script_segments rewrite_filename p) ->
            label <> "map_dsp" -> active p label = false -> cmds = []) /\
        (forall label : string,
            In label checkpoints ->
            (In (run_from st) checkpoints -> run_to st = run_from st ->
             (active p label = true <-> label = run_from st)) /\
            (forall i j k : nat,
                position checkpoints (run_from st) = Some i ->
                position checkpoints (run_to st) = Some j ->
                position checkpoints label = Some k ->
                i <= j ->
                (k < i \/ j < k -> active p label = false) /\
                (i <= k < j -> active p label = true)) /\
            (run_from st = "" -> run_to st = "" -> active p label = true))).
Proof.
  split; [|split; [|split]].
  - intros self cmd name before after d Hbefore Hafter Hfind. cbv zeta.
    apply parse_command_run; [exact Hbefore | exact Hafter |].
    intros st. unfold value_option. cbn [String.eqb Ascii.eqb Bool.eqb].
    rewrite Hfind. reflexivity.
  - intros self cmd from to before after d Hbefore Hafter Hfind. cbv zeta.
    apply parse_command_run; [exact Hbefore | exact Hafter |].
    intros st. unfold value_option. cbn [String.eqb Ascii.eqb Bool.eqb].
    change (from +:+ ":" +:+ to) with (from +:+ String ":" to).
    rewrite (find_append _ _ _ Hfind), substr_to_append, substr_from_append. reflexivity.
  - intros self args d. apply parse_command_no_run.
  - intros rf ea self args w d st Hextra Hsel Hfam.
    rewrite (execute_done rf ea self args w d Hextra Hsel Hfam). fold st.
    eexists _, _. split; [reflexivity|].
    split; [reflexivity|]. split; [reflexivity|]. cbn [trace]. split; [|split].
    + rewrite invoked_app. f_equal. unfold run_script.
      fold (started (resolve_flags (pass st)) (run_from st) (run_to st)).
      apply script_invoked. reflexivity.
    + intros label cmds. apply skipped_checkpoint_issues_nothing.
    + intros label Hlabel. rewrite active_started. split; [|split].
      * intros Hin ->. apply in_window_single; assumption.
      * intros i j k Hi Hj Hk Hij. rewrite (in_window_positions _ _ _ _ _ _ Hi Hj Hk). split.
        -- intros [H|H]; apply andb_false_iff; [left|right]; apply Nat.leb_gt; exact H.
        -- intros [H1 H2]. apply andb_true_iff. split; apply Nat.leb_le; lia.
      * intros -> ->. apply in_window_full. exact Hlabel.
Qed.

Lemma run_option_sets_window_witness :
  (let st := fst (parse_command new_pass
                    (command_name :: ["-family"; "pp3"] ++ "-run" :: "map_luts" ::
                     ["-no_abc9"]) empty_design) in
   run_from st = "map_luts" /\ run_to st = "map_luts") /\
  (let st := fst (parse_command new_pass
                    (command_name :: ["-family"; "qlf_k6n10"; "-no_dsp"] ++
                     "-run" :: ("begin" +:+ ":" +:+ "map_gates") :: []) empty_design) in
   run_from st = "begin" /\ run_to st = "map_gates") /\
  (let st := fst (parse_command new_pass [command_name; "-no_dsp"] empty_design) in
   run_from st = "" /\ run_to st = "") /\
  (let args := [command_name; "-family"; "pp3"; "-run"; "map_luts"; "-no_abc9"] in
   let st := fst (parse_command new_pass args (design (fresh empty_design))) in
   exists (p : SynthQuickLogicPass) (w' : World),
     execute id no_extra_args new_pass args (fresh empty_design) = (Done p, w') /\
     active_run_from p = run_from st /\ active_run_to p = run_to st /\
     invoked (trace w') =
       invoked (trace (fresh empty_design)) ++ concat (map snd (script_segments id p)) /\
     (forall (label : string) (cmds : list string),
         In (label, cmds) (script_segments id p) ->
         label <> "map_dsp" -> active p label = false -> cmds = []) /\
     (forall label : string,
         In label checkpoints ->
         (In (run_from st) checkpoints -> run_to st = run_from st ->
          (active p label = true <-> label = run_from st)) /\
         (forall i j k : nat,
             position checkpoints (run_from st) = Some i ->
             position checkpoints (run_to st) = Some j ->
             position checkpoints label = Some k ->
             i <= j ->
             (k < i \/ j < k -> active p label = false) /\
             (i <= k < j -> active p label = true)) /\
         (run_from st = "" -> run_to st = "" -> active p label = true))).
Proof.
  destruct run_option_sets_window as (Hname & Hrange & Hnone & Hrun).
  split; [|split; [|split]].
  - apply Hname; [reflexivity | | reflexivity].
    cbn. intros [H|[]]. discriminate H.
  - apply Hrange; [reflexivity | | reflexivity].
    cbn. intros [].
  - apply Hnone. cbn. intros [H|[]]. discriminate H.
  - apply (Hrun id no_extra_args new_pass
             [command_name; "-family"; "pp3"; "-run"; "map_luts"; "-no_abc9"]
             (fresh empty_design) empty_design).
    + reflexivity.
    + reflexivity.
    + vm_compute. auto.
Defined.

(** ** Emission *)

(** The writer commands follow their output paths in a real run. *)
Lemma emission_commands (self : SynthQuickLogicPass) :
  help_mode self = false ->
  invoked (events (body_blif self)) =
    (if empty (blif_file self) then [] else ["write_blif -param " +:+ blif_file self]) /\
  invoked (events (body_verilog self)) =
    (if empty (verilog_file self) then []
     else ["write_verilog -noattr -nohex " +:+ verilog_file self]) /\
  invoked (events (body_edif self)) =
    [ "splitnets -ports -format ()"; "quicklogic_eqn";
      "write_ql_edif -nogndvcc -attrprop -pvector par " +:+ currmodule self +:+ " " +:+
      edif_file self ].
Proof.
  destruct self as [hm rf rt top edif blif fam cur ver cfg lib nd ia ib bt ao a9 nf ns].
  cbn [help_mode]. intros ->. repeat split.
  - unfold body_blif, empty. cbn. destruct (blif == ""); reflexivity.
  - unfold body_verilog, empty. cbn. destruct (ver == ""); reflexivity.
Qed.

(** C7.  The [edif] writer is handed [currmodule], which no option
    assigns: with [-top top -edif out.edif] the top module option is
    parsed into [top_opt], [currmodule] stays empty, and the writer
    command of the [edif] checkpoint carries an empty module name. *)
Theorem edif_writer_gets_empty_module_name :
  (forall (self : SynthQuickLogicPass) (args : list string) (d : Design),
      currmodule (pass (fst (parse_command self args d))) = "") /\
  (let st := fst (parse_command new_pass
                    [command_name; "-top"; "top"; "-edif"; "out.edif"] empty_design) in
   top_opt (pass st) = "-top top" /\ edif_file (pass st) = "out.edif") /\
  (forall rewrite_filename : string -> string,
      invoked (trace (single_run rewrite_filename
                        ["-top"; "top"; "-edif"; "out.edif"; "-run"; "edif"])) =
      [ "splitnets -ports -format ()"; "quicklogic_eqn";
        "write_ql_edif -nogndvcc -attrprop -pvector par  out.edif" ]).
Proof.
  split; [exact parse_command_currmodule|]. split.
  - cbv zeta. split; vm_compute; reflexivity.
  - intros rf. vm_compute. reflexivity.
Qed.

(** ** Runs without DSP inference *)

Lemma noDFFArgs_of_value (self : SynthQuickLogicPass) :
  help_mode self = false -> In (noDFFArgs_of self) noDFFArgs_values.
Proof.
  unfold noDFFArgs_of. destruct (active self "prepare"); [|intros _; left; reflexivity].
  open_pass self. unfold body_prepare, value. repeat (rewrite value_bind; cbv beta).
  split_tests; vm_compute; auto 6.
Qed.

Lemma no_dsp_pass_app (l1 l2 : list string) :
  no_dsp_pass (l1 ++ l2) = no_dsp_pass l1 && no_dsp_pass l2.
Proof. apply forallb_app. Qed.

Lemma begin_no_dsp_pass (self : SynthQuickLogicPass) :
  help_mode self = false -> no_dsp_pass (invoked (events (body_begin self))) = true.
Proof. open_pass self. unfold body_begin, run, run_info. split_tests; vm_compute; reflexivity. Qed.

Lemma prepare_no_dsp_pass (self : SynthQuickLogicPass) :
  help_mode self = false -> no_dsp_pass (invoked (events (body_prepare self ""))) = true.
Proof. open_pass self. unfold body_prepare, run, run_info. split_tests; vm_compute; reflexivity. Qed.

Lemma map_dsp_disabled (self : SynthQuickLogicPass) :
  help_mode self = false -> nodsp self = true ->
  events (map_dsp_k6n10 self) = [] /\ events (map_dsp_k6n10f self) = [] /\
  events (body_map_dsp self) = [].
Proof.
  open_pass self. intros ->. unfold body_map_dsp, map_dsp_k6n10, map_dsp_k6n10f.
  rewrite events_bind. split_tests; repeat split; reflexivity.
Qed.

Lemma coarse_no_dsp_pass (self : SynthQuickLogicPass) (noDFFArgs : string) :
  help_mode self = false -> In noDFFArgs noDFFArgs_values ->
  no_dsp_pass (invoked (events (body_coarse self noDFFArgs))) = true.
Proof. open_pass self. intros H. each_value H; vm_compute; reflexivity. Qed.

Lemma bram_types_no_dsp_pass : no_dsp_pass bram_types_commands = true.
Proof. vm_compute. reflexivity. Qed.

Lemma map_bram_no_dsp_pass (self : SynthQuickLogicPass) :
  help_mode self = false -> no_dsp_pass (invoked (events (body_map_bram self))) = true.
Proof.
  intros real. unfold body_map_bram.
  repeat (rewrite ?events_bind, ?invoked_app, ?events_when, ?invoked_if, ?no_dsp_pass_app).
  rewrite bram_types_chtypes_real by exact real.
  assert (H : no_dsp_pass (if bramTypes self then bram_types_commands else invoked []) = true)
    by (destruct (bramTypes self); [exact bram_types_no_dsp_pass | reflexivity]).
  rewrite H, andb_true_r. clear H. revert real.
  open_pass self. unfold run, run_info. split_tests; vm_compute; reflexivity.
Qed.

Lemma map_ffram_no_dsp_pass (self : SynthQuickLogicPass) (noDFFArgs : string) :
  help_mode self = false -> In noDFFArgs noDFFArgs_values ->
  no_dsp_pass (invoked (events (body_map_ffram self noDFFArgs))) = true.
Proof. open_pass self. intros H. each_value H; vm_compute; reflexivity. Qed.

Lemma map_gates_no_dsp_pass (self : SynthQuickLogicPass) (noDFFArgs : string) :
  help_mode self = false -> In noDFFArgs noDFFArgs_values ->
  no_dsp_pass (invoked (events (body_map_gates self noDFFArgs))) = true.
Proof.
  open_pass self. intros H. unfold body_map_gates, run, run_info.
  each_value H; split_tests; vm_compute; reflexivity.
Qed.

Lemma map_ffs_no_dsp_pass (self : SynthQuickLogicPass) (noDFFArgs : string) :
  help_mode self = false -> In noDFFArgs noDFFArgs_values ->
  no_dsp_pass (invoked (events (body_map_ffs self noDFFArgs))) = true.
Proof.
  open_pass self. intros H. unfold body_map_ffs, run, run_info.
  each_value H; split_tests; vm_compute; reflexivity.
Qed.

Lemma map_luts_no_dsp_pass (rewrite_filename : string -> string) (self : SynthQuickLogicPass) :
  help_mode self = false ->
  no_dsp_pass (invoked (events (body_map_luts rewrite_filename self))) = true.
Proof.
  open_pass self. unfold body_map_luts, run, run_info. split_tests; vm_compute; reflexivity.
Qed.

Lemma tail_no_dsp_pass (self : SynthQuickLogicPass) :
  help_mode self = false ->
  no_dsp_pass (invoked (events (body_map_cells self))) = true /\
  no_dsp_pass (invoked (events (body_check self))) = true /\
  no_dsp_pass (invoked (events (body_iomap self))) = true /\
  no_dsp_pass (invoked (events (body_finalize self))) = true /\
  no_dsp_pass (invoked (events (body_blif self))) = true /\
  no_dsp_pass (invoked (events (body_edif self))) = true /\
  no_dsp_pass (invoked (events (body_verilog self))) = true.
Proof.
  open_pass self.
  unfold body_map_cells, body_check, body_iomap, body_finalize, body_blif, body_edif,
    body_verilog, run, run_info, empty.
  repeat split; split_tests; vm_compute; reflexivity.
Qed.

Lemma segment_no_dsp_pass (b : bool) (body : W unit) :
  no_dsp_pass (invoked (events body)) = true -> no_dsp_pass (segment b body) = true.
Proof. intros H. unfold segment. destruct b; [exact H | reflexivity]. Qed.

(** The checkpoints of a real run other than [map_dsp] invoke no DSP pass. *)
Lemma other_checkpoints_no_dsp_pass (rewrite_filename : string -> string)
    (self : SynthQuickLogicPass) (label : string) (cmds : list string) :
  help_mode self = false ->
  In (label, cmds) (script_segments rewrite_filename self) ->
  label <> "map_dsp" ->
  no_dsp_pass cmds = true.
Proof.
  intros real Hin Hne. unfold script_segments in Hin. cbn [In] in Hin.
  pose proof (noDFFArgs_of_value self real) as Hargs.
  pose proof (tail_no_dsp_pass self real) as (Hc & Hk & Hi & Hf & Hb & He & Hv).
  repeat (destruct Hin as [Hin | Hin];
          [ injection Hin as <- <-; try congruence;
            try (apply segment_no_dsp_pass);
            auto using begin_no_dsp_pass, coarse_no_dsp_pass, map_bram_no_dsp_pass,
              map_ffram_no_dsp_pass, map_gates_no_dsp_pass, map_ffs_no_dsp_pass,
              map_luts_no_dsp_pass | ]).
  - destruct (active self "prepare"); [apply prepare_no_dsp_pass; exact real | reflexivity].
  - contradiction.
Qed.

Lemma no_dsp_pass_concat (segments : list (string * list string)) :
  (forall label cmds, In (label, cmds) segments -> no_dsp_pass cmds = true) ->
  no_dsp_pass (concat (map snd segments)) = true.
Proof.
  induction segments as [|[label cmds] segments IH]; intros H; [reflexivity|].
  cbn [map snd concat]. rewrite no_dsp_pass_app, (H label cmds) by (left; reflexivity).
  apply IH. intros l c Hin. apply (H l c). right. exact Hin.
Qed.

(** C5.  In a real run with [-no_dsp], whatever the family is, neither
    family branch of [map_dsp] issues a command; for every resume window
    the commands of the run are those of the other checkpoints, and none
    of them invokes a DSP pass. *)
Theorem no_dsp_issues_no_dsp_command (rewrite_filename : string -> string)
    (self : SynthQuickLogicPass) :
  help_mode self = false ->
  nodsp self = true ->
  events (map_dsp_k6n10 self) = [] /\
  events (map_dsp_k6n10f self) = [] /\
  forall run_from run_to : string,
    let cmds := invoked (events (run_script rewrite_filename self run_from run_to)) in
    cmds = concat (map snd (outside_map_dsp
                              (script_segments rewrite_filename
                                               (started self run_from run_to)))) /\
    no_dsp_pass cmds = true.
Proof.
  intros real Hnodsp.
  destruct (map_dsp_disabled self real Hnodsp) as (H1 & H2 & _).
  split; [exact H1|]. split; [exact H2|].
  intros run_from run_to. cbv zeta. unfold run_script. fold (started self run_from run_to).
  assert (Hreal : help_mode (started self run_from run_to) = false) by reflexivity.
  assert (Hno : nodsp (started self run_from run_to) = true) by exact Hnodsp.
  destruct (map_dsp_disabled _ Hreal Hno) as (_ & _ & H3).
  rewrite script_invoked by exact Hreal.
  assert (Heq : concat (map snd (script_segments rewrite_filename (started self run_from run_to)))
                = concat (map snd (outside_map_dsp
                                     (script_segments rewrite_filename
                                                      (started self run_from run_to))))).
  { unfold script_segments, outside_map_dsp. rewrite H3. reflexivity. }
  split; [exact Heq|].
  rewrite Heq. apply no_dsp_pass_concat. intros label cmds Hin.
  unfold outside_map_dsp in Hin. apply list_elem_of_In, list_elem_of_filter in Hin.
  destruct Hin as [Hne Hin]. apply list_elem_of_In in Hin.
  exact (other_checkpoints_no_dsp_pass _ _ _ _ Hreal Hin Hne).
Qed.

Lemma no_dsp_issues_no_dsp_command_witness :
  events (map_dsp_k6n10 (set_nodsp true (real_pass "qlf_k6n10"))) = [] /\
  events (map_dsp_k6n10f (set_nodsp true (real_pass "qlf_k6n10"))) = [] /\
  forall run_from run_to : string,
    let cmds := invoked (events (run_script id (set_nodsp true (real_pass "qlf_k6n10"))
                                            run_from run_to)) in
    cmds = concat (map snd (outside_map_dsp
                              (script_segments id
                                 (started (set_nodsp true (real_pass "qlf_k6n10"))
                                          run_from run_to)))) /\
    no_dsp_pass cmds = true.
Proof.
  exact (no_dsp_issues_no_dsp_command id (set_nodsp true (real_pass "qlf_k6n10"))
           eq_refl eq_refl).
Defined.

(** * Further properties of the code *)

(** ** The option loop, case by case *)

(** The cases of [parse_args] as an induction principle: the end of the
    arguments, a value option with its value, a flag, and the first
    argument that is no option. *)
Lemma parse_args_cases (P : list string -> nat -> Parsed -> Parsed * nat -> Prop) :
  (forall argidx st, P [] argidx st (st, argidx)) ->
  (forall arg val rest argidx st st',
      value_option arg val st = Some st' ->
      P rest (argidx + 2) st' (parse_args rest (argidx + 2) st') ->
      P (arg :: val :: rest) argidx st (parse_args rest (argidx + 2) st')) ->
  (forall arg rest argidx st st',
      flag_option arg st = Some st' ->
      P rest (argidx + 1) st' (parse_args rest (argidx + 1) st') ->
      P (arg :: rest) argidx st (parse_args rest (argidx + 1) st')) ->
  (forall arg rest argidx st,
      flag_option arg st = None ->
      (forall val rest', rest = val :: rest' -> value_option arg val st = None) ->
      P (arg :: rest) argidx st (st, argidx)) ->
  forall args argidx st, P args argidx st (parse_args args argidx st).
Proof.
  intros Hend Hval Hflag Hstop.
  assert (H : forall n args, length args <= n ->
              forall argidx st, P args argidx st (parse_args args argidx st)).
  { induction n as [|n IH]; intros [|arg rest] Hlen argidx st;
      cbn [length] in Hlen; try lia; try apply Hend.
    cbn [parse_args].
    assert (Hflags : (forall val rest', rest = val :: rest' ->
                                        value_option arg val st = None) ->
                     P (arg :: rest) argidx st
                       match flag_option arg st with
                       | Some st' => parse_args rest (argidx + 1) st'
                       | None => (st, argidx)
                       end).
    { intros Hnone. destruct (flag_option arg st) as [st'|] eqn:E.
      - apply Hflag; [exact E|]. apply IH. lia.
      - apply Hstop; assumption. }
    destruct rest as [|val rest']; [apply Hflags; intros v r [=]|].
    destruct (value_option arg val st) as [st'|] eqn:E.
    - apply Hval; [exact E|]. apply IH. cbn [length] in Hlen. lia.
    - apply Hflags. intros v r [= <- <-]. exact E. }
  intros args. apply (H (length args)). lia.
Qed.

Lemma value_option_name (arg val : string) (st st' : Parsed) :
  value_option arg val st = Some st' -> In arg value_option_names.
Proof.
  unfold value_option, value_option_names. cbn [In].
  repeat match goal with
         | |- context [String.eqb arg ?l] =>
             destruct (String.eqb_spec arg l) as [->|_]; [intros _; auto 10|]
         end.
  discriminate.
Qed.

Lemma flag_option_name (arg : string) (st st' : Parsed) :
  flag_option arg st = Some st' -> In arg flag_option_names.
Proof.
  unfold flag_option, flag_option_names. cbn [In].
  repeat match goal with
         | |- context [String.eqb arg ?l] =>
             destruct (String.eqb_spec arg l) as [->|_]; [intros _; auto 12|]
         end.
  discriminate.
Qed.

(** X1.  The index at which the option loop stops lies between the index
    it started at and the end of the arguments; for [execute], between 1
    and the number of arguments, so the argument it names, if any, is one
    of the command's. *)
Theorem parse_index_in_bounds :
  (forall (args : list string) (argidx : nat) (st : Parsed),
      argidx <= snd (parse_args args argidx st) <= argidx + length args) /\
  (forall (self : SynthQuickLogicPass) (args : list string) (d : Design),
      1 <= snd (parse_command self args d) <= Nat.max 1 (length args)).
Proof.
  assert (H : forall (args : list string) (argidx : nat) (st : Parsed),
             argidx <= snd (parse_args args argidx st) <= argidx + length args).
  { apply (parse_args_cases (fun args argidx _ r => argidx <= snd r <= argidx + length args));
      intros; cbn [snd length] in *; lia. }
  split; [exact H|].
  intros self args d. unfold parse_command.
  match goal with |- context [parse_args ?a ?i ?s] => pose proof (H a i s) as B end.
  destruct args as [|cmd args]; cbn [tl length] in *; lia.
Qed.

(** X2.  The option loop stops at the first argument that is none of its
    fifteen options and reads nothing behind it; it also stops at a value
    option that is the last argument, leaving it unconsumed. *)
Theorem parse_stops_at_first_non_option :
  (forall (arg : string) (rest : list string) (argidx : nat) (st : Parsed),
      ~ In arg (value_option_names ++ flag_option_names) ->
      parse_args (arg :: rest) argidx st = (st, argidx)) /\
  (forall (arg : string) (argidx : nat) (st : Parsed),
      In arg value_option_names ->
      parse_args [arg] argidx st = (st, argidx)).
Proof.
  split.
  - intros arg rest argidx st Hno. cbn [parse_args].
    assert (Hv : forall val, value_option arg val st = None).
    { intros val. destruct (value_option arg val st) eqn:E; [|reflexivity].
      exfalso. apply Hno, in_or_app. left. eapply value_option_name, E. }
    assert (Hf : flag_option arg st = None).
    { destruct (flag_option arg st) eqn:E; [|reflexivity].
      exfalso. apply Hno, in_or_app. right. eapply flag_option_name, E. }
    rewrite Hf. destruct rest as [|val rest']; [reflexivity|]. rewrite Hv. reflexivity.
  - intros arg argidx st Hin. cbn [parse_args].
    unfold value_option_names in Hin. cbn [In] in Hin.
    repeat (destruct Hin as [<-|Hin]; [reflexivity|]). contradiction.
Qed.

Lemma parse_stops_at_first_non_option_witness :
  parse_args ["design.v"; "-family"; "pp3"] 1
             {| pass := clear_flags new_pass; run_from := ""; run_to := "" |} =
  ({| pass := clear_flags new_pass; run_from := ""; run_to := "" |}, 1) /\
  parse_args ["-family"] 1 {| pass := clear_flags new_pass; run_from := ""; run_to := "" |} =
  ({| pass := clear_flags new_pass; run_from := ""; run_to := "" |}, 1).
Proof.
  split.
  - apply (proj1 parse_stops_at_first_non_option).
    vm_compute. intros H. repeat (destruct H as [H|H]; [discriminate H|]). exact H.
  - apply (proj2 parse_stops_at_first_non_option). vm_compute. auto 10.
Defined.

(** ** An option given again *)

(** An option is blind to the member another option assigns. *)
Lemma value_option_but_for (opt arg val : string) (st : Parsed) :
  option_map (but_for opt) (value_option arg val (but_for opt st)) =
  option_map (but_for opt) (value_option arg val st).
Proof.
  unfold but_for, value_option, flag_option.
  cbn [find]. destruct (find ":" val); each_option; reflexivity.
Qed.

Lemma flag_option_but_for (opt arg : string) (st : Parsed) :
  option_map (but_for opt) (flag_option arg (but_for opt st)) =
  option_map (but_for opt) (flag_option arg st).
Proof.
  unfold but_for, value_option, flag_option.
  cbn [find]. each_option; reflexivity.
Qed.

Lemma value_option_agree (opt arg val : string) (a b : Parsed) :
  but_for opt a = but_for opt b ->
  option_map (but_for opt) (value_option arg val a) =
  option_map (but_for opt) (value_option arg val b).
Proof.
  intros H. rewrite <- (value_option_but_for opt arg val a), H.
  apply value_option_but_for.
Qed.

Lemma flag_option_agree (opt arg : string) (a b : Parsed) :
  but_for opt a = but_for opt b ->
  option_map (but_for opt) (flag_option arg a) =
  option_map (but_for opt) (flag_option arg b).
Proof.
  intros H. rewrite <- (flag_option_but_for opt arg a), H.
  apply flag_option_but_for.
Qed.

(** Two states that differ in the member of [opt] at most still do so when
    the loop has read the same arguments from both. *)
Lemma parse_args_agree (opt : string) (args : list string) (argidx : nat) (a b : Parsed) :
  but_for opt a = but_for opt b ->
  but_for opt (fst (parse_args args argidx a)) =
  but_for opt (fst (parse_args args argidx b)).
Proof.
  revert argidx a b.
  assert (H : forall n args, length args <= n -> forall argidx a b,
              but_for opt a = but_for opt b ->
              but_for opt (fst (parse_args args argidx a)) =
              but_for opt (fst (parse_args args argidx b))).
  { induction n as [|n IH]; intros [|arg rest] Hlen argidx a b Hab;
      cbn [length] in Hlen; try lia; try exact Hab.
    cbn [parse_args].
    assert (Hflags :
              but_for opt (fst match flag_option arg a with
                               | Some st' => parse_args rest (argidx + 1) st'
                               | None => (a, argidx)
                               end) =
              but_for opt (fst match flag_option arg b with
                               | Some st' => parse_args rest (argidx + 1) st'
                               | None => (b, argidx)
                               end)).
    { pose proof (flag_option_agree opt arg a b Hab) as Hf.
      destruct (flag_option arg a) as [a'|], (flag_option arg b) as [b'|];
        cbn [option_map] in Hf; try discriminate Hf; [|exact Hab].
      apply IH; [lia | congruence]. }
    destruct rest as [|val rest']; [exact Hflags|].
    pose proof (value_option_agree opt arg val a b Hab) as Hv.
    destruct (value_option arg val a) as [a'|], (value_option arg val b) as [b'|];
      cbn [option_map] in Hv; try discriminate Hv; [|exact Hflags].
    apply IH; [cbn [length] in Hlen; lia | congruence]. }
  intros argidx a b. apply (H (length args)). lia.
Qed.

(** Assigning the member of [opt] makes up for any difference in it. *)
Lemma value_option_settles (opt val : string) (a b : Parsed) :
  but_for opt a = but_for opt b ->
  value_option opt val a = value_option opt val b.
Proof.
  assert (H : forall st, value_option opt val (but_for opt st) = value_option opt val st).
  { intros st. unfold but_for, value_option, flag_option.
    cbn [find]. destruct (find ":" val); each_option; reflexivity. }
  intros Hab. rewrite <- (H a), Hab. apply H.
Qed.

Lemma flag_option_settles (opt : string) (a b : Parsed) :
  existsb (String.eqb opt) value_option_names = false ->
  but_for opt a = but_for opt b ->
  flag_option opt a = flag_option opt b.
Proof.
  intros Hv.
  assert (H : forall st, flag_option opt (but_for opt st) = flag_option opt st).
  { intros st. unfold but_for. rewrite (value_option_not_taken _ _ _ Hv).
    unfold flag_option. each_option; reflexivity. }
  intros Hab. rewrite <- (H a), Hab. apply H.
Qed.

Lemma value_option_but_for_self (opt val : string) (st st' : Parsed) :
  value_option opt val st = Some st' -> but_for opt st' = but_for opt st.
Proof.
  unfold but_for, value_option, flag_option. cbn [find].
  destruct (find ":" val); each_option; intros [= <-]; reflexivity.
Qed.

Lemma flag_option_but_for_self (opt : string) (st st' : Parsed) :
  existsb (String.eqb opt) value_option_names = false ->
  flag_option opt st = Some st' -> but_for opt st' = but_for opt st.
Proof.
  intros Hv. unfold but_for. rewrite !(value_option_not_taken _ _ _ Hv).
  unfold flag_option. each_option; intros [= <-]; reflexivity.
Qed.

Lemma flag_is_no_value_option (flag : string) :
  In flag flag_option_names -> existsb (String.eqb flag) value_option_names = false.
Proof.
  unfold flag_option_names. cbn [In].
  intros H. repeat (destruct H as [<-|H]; [reflexivity|]). contradiction.
Qed.

Lemma existsb_name (name : string) (names : list string) :
  In name names -> existsb (String.eqb name) names = true.
Proof.
  intros H. apply existsb_exists. exists name. split; [exact H | apply String.eqb_refl].
Qed.

(** What an option assigned stays when a different option is read. *)
Lemma value_option_holds (opt v arg val : string) (st st' : Parsed) :
  arg <> opt ->
  value_option opt v st = Some st ->
  value_option arg val st = Some st' ->
  value_option opt v st' = Some st'.
Proof.
  intros Hne. destruct st as [p rf rt]. destruct p.
  unfold value_option, on_pass. cbn [pass run_from run_to].
  destruct (find ":" v), (find ":" val);
  repeat match goal with
         | |- context [String.eqb opt ?l] => destruct (String.eqb_spec opt l) as [?|?]
         end; try discriminate;
  repeat match goal with
         | |- context [String.eqb arg ?l] => destruct (String.eqb_spec arg l) as [?|?]
         end; try discriminate; try congruence;
    intros H [= <-]; cbn in H |- *; injection H as H; subst; try congruence; reflexivity.
Qed.

Lemma flag_option_holds (opt v arg : string) (st st' : Parsed) :
  value_option opt v st = Some st ->
  flag_option arg st = Some st' ->
  value_option opt v st' = Some st'.
Proof.
  destruct st as [p rf rt]. destruct p.
  unfold value_option, flag_option, on_pass. cbn [pass run_from run_to].
  destruct (find ":" v);
  repeat match goal with
         | |- context [String.eqb opt ?l] => destruct (String.eqb_spec opt l) as [?|?]
         end; try discriminate;
  repeat match goal with
         | |- context [String.eqb arg ?l] => destruct (String.eqb_spec arg l) as [?|?]
         end; try discriminate;
    intros H [= <-]; cbn in H |- *; injection H as H; subst; try congruence; reflexivity.
Qed.

Lemma value_option_assigns (opt v : string) (st st' : Parsed) :
  value_option opt v st = Some st' -> value_option opt v st' = Some st'.
Proof.
  unfold value_option. 
  destruct (find ":" v); each_option; intros [= <-]; try reflexivity.
Qed.

(** What the last occurrence of a value option assigned is still there
    when the loop ends. *)
Lemma parse_args_holds (opt v : string) (args : list string) (argidx : nat) (st : Parsed) :
  ~ In opt args ->
  value_option opt v st = Some st ->
  value_option opt v (fst (parse_args args argidx st)) = Some (fst (parse_args args argidx st)).
Proof.
  apply (parse_args_cases
           (fun args _ st r => ~ In opt args -> value_option opt v st = Some st ->
                               value_option opt v (fst r) = Some (fst r))).
  - intros i s _ H. exact H.
  - intros arg val rest i s s' E IH Hno H. apply IH.
    + intros Hin. apply Hno. right. right. exact Hin.
    + apply (value_option_holds opt v arg val s s'); [|exact H|exact E].
      intros ->. apply Hno. left. reflexivity.
  - intros arg rest i s s' E IH Hno H. apply IH.
    + intros Hin. apply Hno. right. exact Hin.
    + apply (flag_option_holds opt v arg s s'); [exact H|exact E].
  - intros arg rest i s _ _ _ H. exact H.
Qed.

(** X3.  An option given again overrides the earlier occurrence, whatever
    options stand before, between and behind the two: the loop ends in the
    state it ends in without the earlier occurrence.  So a flag given twice
    is the flag given once, and the last value of a value option wins: when
    the loop ends, the member holds what the last occurrence assigned, so
    that assigning this value once more would change nothing. *)
Theorem repeated_option_last_wins :
  (forall (opt v1 v2 : string) (before between after : list string)
          (argidx : nat) (st : Parsed),
      In opt value_option_names ->
      options_only before = true -> options_only between = true ->
      fst (parse_args (before ++ opt :: v1 :: between ++ opt :: v2 :: after) argidx st) =
      fst (parse_args (before ++ between ++ opt :: v2 :: after) argidx st)) /\
  (forall (flag : string) (before between after : list string)
          (argidx : nat) (st : Parsed),
      In flag flag_option_names ->
      options_only before = true -> options_only between = true ->
      fst (parse_args (before ++ flag :: between ++ flag :: after) argidx st) =
      fst (parse_args (before ++ between ++ flag :: after) argidx st)) /\
  (forall (opt v : string) (before after : list string) (argidx : nat) (st : Parsed),
      In opt value_option_names ->
      options_only before = true -> ~ In opt after ->
      let final := fst (parse_args (before ++ opt :: v :: after) argidx st) in
      value_option opt v final = Some final).
Proof.
  split; [|split].
  - intros opt v1 v2 before between after argidx st Hopt Hbefore Hbetween.
    apply existsb_name in Hopt.
    rewrite !(parse_args_app before _ Hbefore).
    set (s0 := fst (parse_args before argidx st)).
    destruct (value_option_taken opt v1 s0 Hopt) as [s1 E1].
    rewrite (parse_args_value _ _ _ _ _ _ E1).
    rewrite !(parse_args_app between _ Hbetween).
    assert (Hagree : but_for opt (fst (parse_args between (argidx + length before + 2) s1)) =
                     but_for opt (fst (parse_args between (argidx + length before) s0))).
    { rewrite (parse_args_state between _ (argidx + length before)).
      apply parse_args_agree. eapply value_option_but_for_self, E1. }
    destruct (value_option_taken opt v2
                (fst (parse_args between (argidx + length before + 2) s1)) Hopt) as [s2 E2].
    rewrite (parse_args_value _ _ _ _ _ _ E2).
    rewrite (value_option_settles opt v2 _ _ Hagree) in E2.
    rewrite (parse_args_value _ _ _ _ _ _ E2).
    apply parse_args_state.
  - intros flag before between after argidx st Hflag Hbefore Hbetween.
    pose proof (flag_is_no_value_option flag Hflag) as Hv.
    apply existsb_name in Hflag.
    rewrite !(parse_args_app before _ Hbefore).
    set (s0 := fst (parse_args before argidx st)).
    destruct (flag_option_taken flag s0 Hflag) as [s1 E1].
    rewrite (parse_args_flag _ _ _ _ _ Hv E1).
    rewrite !(parse_args_app between _ Hbetween).
    assert (Hagree : but_for flag (fst (parse_args between (argidx + length before + 1) s1)) =
                     but_for flag (fst (parse_args between (argidx + length before) s0))).
    { rewrite (parse_args_state between _ (argidx + length before)).
      apply parse_args_agree. eapply flag_option_but_for_self; [exact Hv | exact E1]. }
    destruct (flag_option_taken flag
                (fst (parse_args between (argidx + length before + 1) s1)) Hflag) as [s2 E2].
    rewrite (parse_args_flag _ _ _ _ _ Hv E2).
    rewrite (flag_option_settles flag _ _ Hv Hagree) in E2.
    rewrite (parse_args_flag _ _ _ _ _ Hv E2).
    apply parse_args_state.
  - intros opt v before after argidx st Hopt Hbefore Hafter. cbv zeta.
    apply existsb_name in Hopt.
    rewrite (parse_args_app before _ Hbefore).
    destruct (value_option_taken opt v (fst (parse_args before argidx st)) Hopt) as [s1 E1].
    rewrite (parse_args_value _ _ _ _ _ _ E1).
    apply parse_args_holds; [exact Hafter|]. eapply value_option_assigns, E1.
Qed.

Lemma repeated_option_last_wins_witness :
  fst (parse_args ([] ++ "-family" :: "qlf_k6n10" :: ["-no_dsp"] ++ "-family" :: "pp3" ::
                   ["-no_dsp"]) 1
                  {| pass := clear_flags new_pass; run_from := ""; run_to := "" |}) =
  fst (parse_args ([] ++ ["-no_dsp"] ++ "-family" :: "pp3" :: ["-no_dsp"]) 1
                  {| pass := clear_flags new_pass; run_from := ""; run_to := "" |}) /\
  fst (parse_args (["-family"; "qlf_k6n10"] ++ "-no_dsp" :: ["-family"; "pp3"] ++
                   "-no_dsp" :: []) 1
                  {| pass := clear_flags new_pass; run_from := ""; run_to := "" |}) =
  fst (parse_args (["-family"; "qlf_k6n10"] ++ ["-family"; "pp3"] ++ "-no_dsp" :: []) 1
                  {| pass := clear_flags new_pass; run_from := ""; run_to := "" |}) /\
  (let final :=
     fst (parse_args (["-family"; "qlf_k6n10"; "-no_dsp"] ++ "-family" :: "pp3" ::
                      ["-no_dsp"]) 1
                     {| pass := clear_flags new_pass; run_from := ""; run_to := "" |}) in
   value_option "-family" "pp3" final = Some final).
Proof.
  destruct repeated_option_last_wins as (Hvalue & Hflag & Hlast).
  split; [|split].
  - apply (Hvalue "-family" "qlf_k6n10" "pp3" [] ["-no_dsp"] ["-no_dsp"]);
      [vm_compute; auto 10 | reflexivity | reflexivity].
  - apply (Hflag "-no_dsp" ["-family"; "qlf_k6n10"] ["-family"; "pp3"] []);
      [vm_compute; auto 10 | reflexivity | reflexivity].
  - apply (Hlast "-family" "pp3" ["-family"; "qlf_k6n10"; "-no_dsp"] ["-no_dsp"]);
      [vm_compute; auto 10 | reflexivity |].
    cbn. intros [H|[]]. discriminate H.
Defined.

(** ** Flags that move one way *)

Lemma one_way_refl (st : Parsed) : one_way st st.
Proof. unfold one_way, stays_on, stays_off. tauto. Qed.

Lemma one_way_trans (st1 st2 st3 : Parsed) :
  one_way st1 st2 -> one_way st2 st3 -> one_way st1 st3.
Proof. unfold one_way, stays_on, stays_off. tauto. Qed.

Lemma value_option_one_way (arg val : string) (st st' : Parsed) :
  value_option arg val st = Some st' -> one_way st st'.
Proof.
  unfold value_option.
  destruct (arg == "-run");
    [destruct (find ":" val); intros [= <-];
     unfold one_way, stays_on, stays_off; cbn; tauto|].
  repeat (destruct (arg == _);
          [intros [= <-]; unfold one_way, stays_on, stays_off; cbn; tauto|]).
  discriminate.
Qed.

Lemma flag_option_one_way (arg : string) (st st' : Parsed) :
  flag_option arg st = Some st' -> one_way st st'.
Proof.
  unfold flag_option.
  repeat (destruct (arg == _);
          [intros [= <-]; unfold one_way, stays_on, stays_off; cbn; tauto|]).
  discriminate.
Qed.

(** X4.  The options move each flag in one direction only: whatever
    follows, [-no_dsp], [-bram_types], [-no_ff_map] and [-nosdff] stay in
    force, and adder inference, BRAM inference, the ABC optimizations and
    ABC9 stay off once switched off. *)
Theorem options_move_flags_one_way (args : list string) (argidx : nat) (st : Parsed) :
  one_way st (fst (parse_args args argidx st)).
Proof.
  apply (parse_args_cases (fun _ _ st r => one_way st (fst r))).
  - intros. apply one_way_refl.
  - intros arg val rest i s s' E IH.
    eapply one_way_trans; [eapply value_option_one_way; exact E | exact IH].
  - intros arg rest i s s' E IH.
    eapply one_way_trans; [eapply flag_option_one_way; exact E | exact IH].
  - intros. apply one_way_refl.
Qed.

(** ** No state of an earlier invocation *)

Lemma value_option_rebase (h : bool) (a b arg val : string) (st : Parsed) :
  value_option arg val (on_pass (rebase h a b) st) =
  option_map (on_pass (rebase h a b)) (value_option arg val st).
Proof.
  unfold value_option.
  destruct (arg == "-run"); [destruct (find ":" val); reflexivity|].
  repeat (destruct (arg == _); [reflexivity|]). reflexivity.
Qed.

Lemma flag_option_rebase (h : bool) (a b arg : string) (st : Parsed) :
  flag_option arg (on_pass (rebase h a b) st) =
  option_map (on_pass (rebase h a b)) (flag_option arg st).
Proof.
  unfold flag_option.
  repeat (destruct (arg == _); [reflexivity|]). reflexivity.
Qed.

Lemma parse_args_rebase (h : bool) (a b : string) (args : list string) (argidx : nat)
    (st : Parsed) :
  parse_args args argidx (on_pass (rebase h a b) st) =
  (on_pass (rebase h a b) (fst (parse_args args argidx st)), snd (parse_args args argidx st)).
Proof.
  revert argidx st.
  assert (H : forall n args, length args <= n -> forall argidx st,
              parse_args args argidx (on_pass (rebase h a b) st) =
              (on_pass (rebase h a b) (fst (parse_args args argidx st)),
               snd (parse_args args argidx st))).
  { induction n as [|n IH]; intros [|arg rest] Hlen argidx st;
      cbn [length] in Hlen; try lia; try reflexivity.
    cbn [parse_args]. rewrite flag_option_rebase.
    assert (Hflags :
              match option_map (on_pass (rebase h a b)) (flag_option arg st) with
              | Some st' => parse_args rest (argidx + 1) st'
              | None => (on_pass (rebase h a b) st, argidx)
              end =
              (on_pass (rebase h a b)
                 (fst match flag_option arg st with
                      | Some st' => parse_args rest (argidx + 1) st'
                      | None => (st, argidx)
                      end),
               snd match flag_option arg st with
                   | Some st' => parse_args rest (argidx + 1) st'
                   | None => (st, argidx)
                   end)).
    { destruct (flag_option arg st) as [st'|]; cbn [option_map]; [|reflexivity].
      apply IH. lia. }
    destruct rest as [|val rest']; [exact Hflags|].
    rewrite value_option_rebase.
    destruct (value_option arg val st) as [st'|]; cbn [option_map]; [|exact Hflags].
    apply IH. cbn [length] in Hlen. lia. }
  intros argidx st. apply (H (length args)). lia.
Qed.

(** X5.  What the option loop yields does not depend on the pass object
    [execute] is called on: [clear_flags] resets every flag, so no flag,
    window end or index carries over from an earlier invocation. *)
Theorem parse_command_forgets_earlier_flags
    (self1 self2 : SynthQuickLogicPass) (args : list string) (d : Design) :
  flags_of (pass (fst (parse_command self1 args d))) =
  flags_of (pass (fst (parse_command self2 args d))) /\
  run_from (fst (parse_command self1 args d)) = run_from (fst (parse_command self2 args d)) /\
  run_to (fst (parse_command self1 args d)) = run_to (fst (parse_command self2 args d)) /\
  snd (parse_command self1 args d) = snd (parse_command self2 args d).
Proof.
  assert (H : forall self,
             parse_command self args d =
             (on_pass (rebase (help_mode self) (active_run_from self) (active_run_to self))
                      (fst (parse_command new_pass args d)),
              snd (parse_command new_pass args d))).
  { intros self. unfold parse_command. rewrite <- parse_args_rebase. reflexivity. }
  rewrite (H self1), (H self2). repeat split.
Qed.

(** ** The library path *)

Lemma option_keeps_lib_path :
  (forall (arg val : string) (st st' : Parsed),
      value_option arg val st = Some st' -> lib_path (pass st') = lib_path (pass st)) /\
  (forall (arg : string) (st st' : Parsed),
      flag_option arg st = Some st' -> lib_path (pass st') = lib_path (pass st)).
Proof.
  split.
  - intros arg val st st'. unfold value_option.
    destruct (arg == "-run"); [destruct (find ":" val); intros [= <-]; reflexivity|].
    repeat (destruct (arg == _); [intros [= <-]; reflexivity|]).
    discriminate.
  - intros arg st st'. unfold flag_option.
    repeat (destruct (arg == _); [intros [= <-]; reflexivity|]).
    discriminate.
Qed.

(** X6.  The library path the script uses is the scratchpad entry
    [ql.lib_path], or [+/quicklogic/] when the entry is missing; no option
    changes it. *)
Theorem lib_path_comes_from_scratchpad
    (self : SynthQuickLogicPass) (args : list string) (d : Design) :
  lib_path (pass (fst (parse_command self args d))) =
  match scratchpad_string d !! "ql.lib_path" with
  | Some path => path
  | None => "+/quicklogic/"
  end.
Proof.
  unfold parse_command.
  rewrite (parse_args_keeps (fun st => lib_path (pass st))).
  - cbn [pass lib_path set_lib_path]. unfold scratchpad_get_string.
    destruct (scratchpad_string d !! "ql.lib_path"); reflexivity.
  - intros arg val st st' _. apply (proj1 option_keeps_lib_path).
  - apply (proj2 option_keeps_lib_path).
Qed.

(** ** Splitting the window argument *)

Lemma find_split (c : ascii) (s : string) (n : nat) :
  find c s = Some n ->
  s = substr_to n s +:+ String c (substr_from (n + 1) s) /\
  find c (substr_to n s) = None.
Proof.
  revert n. induction s as [|a s IH]; intros n; simpl; [discriminate|].
  destruct (Ascii.eqb_spec a c) as [->|Hne].
  - intros [= <-]. simpl. split; [destruct s; reflexivity | reflexivity].
  - destruct (find c s) as [m|]; [|discriminate]. intros [= <-].
    destruct (IH m eq_refl) as [Hs Hnone]. simpl. split.
    + change (String a s =
              String a (substr_to m s +:+ String c (substr_from (m + 1) s))).
      f_equal. exact Hs.
    + destruct (Ascii.eqb_spec a c); [contradiction|]. rewrite Hnone. reflexivity.
Qed.

(** X7.  [-run] splits its value at the first colon and loses nothing:
    either the value has no colon and both window ends are the value, or
    the value is the first end, a colon and the second end, and the first
    end has no colon. *)
Theorem run_option_splits_at_first_colon (val : string) (st st' : Parsed) :
  value_option "-run" val st = Some st' ->
  pass st' = pass st /\
  ((find ":" val = None /\ run_from st' = val /\ run_to st' = val) \/
   (val = run_from st' +:+ ":" +:+ run_to st' /\ find ":" (run_from st') = None)).
Proof.
  unfold value_option. cbn [String.eqb Ascii.eqb Bool.eqb].
  destruct (find ":" val) as [pos|] eqn:E; intros [= <-]; cbn [pass run_from run_to].
  - split; [reflexivity|]. right. apply (find_split _ _ _ E).
  - split; [reflexivity|]. left. repeat split.
Qed.

Lemma run_option_splits_at_first_colon_witness :
  pass {| pass := new_pass; run_from := "map_ffs"; run_to := "blif:edif" |} = new_pass /\
  ((find ":" "map_ffs:blif:edif" = None /\ "map_ffs" = "map_ffs:blif:edif" /\
    "blif:edif" = "map_ffs:blif:edif") \/
   ("map_ffs:blif:edif" = "map_ffs" +:+ ":" +:+ "blif:edif" /\ find ":" "map_ffs" = None)).
Proof.
  exact (run_option_splits_at_first_colon "map_ffs:blif:edif"
           {| pass := new_pass; run_from := ""; run_to := "" |}
           {| pass := new_pass; run_from := "map_ffs"; run_to := "blif:edif" |} eq_refl).
Defined.

(** ** The checks of [execute] *)

Section ExecuteChecks.

Variable rewrite_filename : string -> string.
Variable extra_args : list string -> nat -> Design -> string + Design.
Variable self : SynthQuickLogicPass.
Variable args : list string.
Variable w : World.

Let st := fst (parse_command self args (design w)).
Let argidx := snd (parse_command self args (design w)).

(** X8.  On a design that is not fully selected [execute] ends with the
    selection error, whatever the family and the options are (an invalid
    family is not even looked at); it runs no checkpoint, prints no
    warning and stores no delay target. *)
Theorem execute_not_fully_selected (d : Design) :
  extra_args args argidx (design w) = inr d ->
  full_selection d = false ->
  execute rewrite_filename extra_args self args w =
  (Fatal selection_error, with_design d w).
Proof.
  intros Hextra Hsel. subst st argidx.
  unfold execute, mbind, get_design.
  destruct (parse_command self args (design w)) as [st idx]. cbn [fst snd] in *.
  rewrite Hextra. unfold put_design. cbn [design]. rewrite Hsel. reflexivity.
Qed.

(** X10.  The flip-flop argument fragment that [prepare] computes in an
    invocation through [execute] is fixed by the family and [-nosdff]:
    for [qlf_k4n8] it is [ -nosdff -nodffe] whether or not [-nosdff] was
    given, for the other families it is [ -nosdff] or empty. *)
Theorem execute_fragment_by_family (d : Design) :
  extra_args args argidx (design w) = inr d ->
  full_selection d = true ->
  In (family (pass st)) supported_families ->
  exists (p : SynthQuickLogicPass) (w' : World),
    execute rewrite_filename extra_args self args w = (Done p, w') /\
    value (body_prepare p "") =
    (if family (pass st) == "qlf_k4n8" then " -nosdff -nodffe"
     else if nosdff (pass st) then " -nosdff" else "").
Proof.
  intros Hextra Hsel Hfam.
  rewrite (execute_done rewrite_filename extra_args self args w d Hextra Hsel Hfam).
  eexists _, _. split; [reflexivity|].
  unfold body_prepare. repeat (rewrite value_bind; cbv beta).
  unfold started, resolve_flags. fold st.
  destruct (family (pass st) == "qlf_k4n8") eqn:E.
  - cbn [nosdff family set_nosdff set_active_run_to set_active_run_from set_help_mode].
    rewrite E. reflexivity.
  - cbn [nosdff family set_active_run_to set_active_run_from set_help_mode].
    rewrite E. destruct (nosdff (pass st)); reflexivity.
Qed.

End ExecuteChecks.

Lemma execute_not_fully_selected_witness :
  execute id no_extra_args new_pass [command_name; "-family"; "xc7"]
          (fresh {| full_selection := false; scratchpad_string := ∅; scratchpad_int := ∅ |}) =
  (Fatal selection_error,
   fresh {| full_selection := false; scratchpad_string := ∅; scratchpad_int := ∅ |}).
Proof.
  exact (execute_not_fully_selected id no_extra_args new_pass
           [command_name; "-family"; "xc7"]
           (fresh {| full_selection := false; scratchpad_string := ∅; scratchpad_int := ∅ |})
           _ eq_refl eq_refl).
Defined.

Lemma execute_fragment_by_family_witness :
  exists (p : SynthQuickLogicPass) (w' : World),
    execute id no_extra_args new_pass [command_name; "-family"; "qlf_k6n10f"; "-nosdff"]
            (fresh empty_design) = (Done p, w') /\
    value (body_prepare p "") = " -nosdff".
Proof.
  apply (execute_fragment_by_family id no_extra_args new_pass
           [command_name; "-family"; "qlf_k6n10f"; "-nosdff"] (fresh empty_design)
           empty_design).
  - reflexivity.
  - reflexivity.
  - vm_compute. auto.
Defined.


(** ** Commands that the host rejects *)

Section HostFacts.

Variable call : Design -> string -> string + Design.



End HostFacts.

Section ExecuteOnHost.

Variable rewrite_filename : string -> string.
Variable extra_args : list string -> nat -> Design -> string + Design.
Variable call : Design -> string -> string + Design.
Variable self : SynthQuickLogicPass.
Variable args : list string.
Variable w : World.

Let st := fst (parse_command self args (design w)).
Let argidx := snd (parse_command self args (design w)).
Let p := resolve_flags (pass st).



End ExecuteOnHost.

(** On a host that accepts every command and leaves the design as it is,
    this is [execute]. *)
Lemma dispatch_obliging (evs : list Event) (w : World) :
  dispatch obliging evs w =
  (Done tt, {| design := design w; warnings := warnings w; trace := trace w ++ evs |}).
Proof.
  revert w. induction evs as [|ev evs IH]; intros w.
  - cbn [dispatch]. rewrite app_nil_r. destruct w; reflexivity.
  - destruct ev; cbn [dispatch obliging]; rewrite IH; cbn [design warnings trace];
      rewrite <- app_assoc; reflexivity.
Qed.

Lemma execute_on_obliging_host (rewrite_filename : string -> string)
    (extra_args : list string -> nat -> Design -> string + Design)
    (self : SynthQuickLogicPass) (args : list string) (w : World) :
  execute_on_host rewrite_filename extra_args obliging self args w =
  execute rewrite_filename extra_args self args w.
Proof.
  unfold execute_on_host, execute, mbind, get_design.
  destruct (parse_command self args (design w)) as [st idx].
  destruct (extra_args args idx (design w)) as [msg|d]; [reflexivity|].
  unfold put_design. cbn [design].
  destruct (negb (full_selection d)); [reflexivity|]. cbn [mret].
  destruct ((family (pass st) != "pp3") && (family (pass st) != "qlf_k4n8") &&
            (family (pass st) != "qlf_k6n10") && (family (pass st) != "qlf_k6n10f"));
    [reflexivity|].
  destruct (abc9 _ && _); cbn [log_warning mret design warnings trace];
    rewrite dispatch_obliging; reflexivity.
Qed.


(** ** The checkpoints of a real run *)

(** X11.  A real run issues the commands of its checkpoints in the order
    of the sixteen labels, and the resume window is a frame for all of them
    but [map_dsp]: a checkpoint the window test rejects contributes no
    command. *)
Theorem checkpoints_outside_window_are_skipped
    (rewrite_filename : string -> string) (self : SynthQuickLogicPass)
    (run_from run_to : string) :
  let segments := script_segments rewrite_filename (started self run_from run_to) in
  invoked (events (run_script rewrite_filename self run_from run_to)) =
    concat (map snd segments) /\
  map fst segments = checkpoints /\
  forall (label : string) (cmds : list string),
    In (label, cmds) segments ->
    label <> "map_dsp" ->
    in_window run_from run_to label = false ->
    cmds = [].
Proof.
  cbv zeta. split; [|split].
  - unfold run_script. fold (started self run_from run_to).
    apply script_invoked. reflexivity.
  - reflexivity.
  - intros label cmds Hin Hne Hout.
    eapply skipped_checkpoint_issues_nothing; [exact Hin | exact Hne | exact Hout].
Qed.

(** X12.  In a real run the [blif] and [verilog] checkpoints issue their
    writer exactly when the output path is not empty, and the [edif]
    checkpoint its three commands exactly when the EDIF path is not empty;
    the EDIF path also decides, for the families other than [pp3], whether
    [finalize] runs [hilomap]. *)
Theorem writers_follow_output_paths (self : SynthQuickLogicPass) :
  help_mode self = false ->
  invoked (events (body_blif self)) =
    (if empty (blif_file self) then [] else ["write_blif -param " +:+ blif_file self]) /\
  invoked (events (body_verilog self)) =
    (if empty (verilog_file self) then []
     else ["write_verilog -noattr -nohex " +:+ verilog_file self]) /\
  (forall rewrite_filename : string -> string,
      In ("edif",
          if active self "edif" && negb (empty (edif_file self))
          then [ "splitnets -ports -format ()"; "quicklogic_eqn";
                 "write_ql_edif -nogndvcc -attrprop -pvector par " +:+ currmodule self +:+
                 " " +:+ edif_file self ]
          else [])
         (script_segments rewrite_filename self)) /\
  invoked (events (body_finalize self)) =
    (if family self == "pp3" then ["setundef -zero -params -undriven"] else []) ++
    (if (family self == "pp3") || negb (empty (edif_file self))
     then ["hilomap -hicell logic_1 a -locell logic_0 a -singleton A:top"] else []) ++
    ["opt_clean -purge"; "check"; "blackbox =A:whitebox"].
Proof.
  intros real.
  destruct (emission_commands self real) as (Hblif & Hverilog & Hedif).
  split; [exact Hblif|]. split; [exact Hverilog|]. split.
  - intros rf. unfold script_segments, segment. rewrite Hedif. cbn [In]. auto 20.
  - revert real. open_pass self. unfold body_finalize, run, run_info, empty.
    cbn [help_mode family edif_file orb].
    destruct (fam == "pp3"), (edif == ""); reflexivity.
Qed.

Lemma writers_follow_output_paths_witness :
  invoked (events (body_blif (set_blif_file "out.blif" (real_pass "pp3")))) =
  ["write_blif -param out.blif"].
Proof.
  exact (proj1 (writers_follow_output_paths (set_blif_file "out.blif" (real_pass "pp3"))
                  eq_refl)).
Defined.

(** X13.  In a real run for a supported family [map_luts] runs the LUT
    mapping of that family and then [clean] and [opt_lut]; with
    [-no_abc_opt] it runs only the latter two.  Exactly one LUT mapper is
    invoked when the ABC optimizations are on: with six inputs for
    [qlf_k6n10] and [qlf_k6n10f], with four for [qlf_k4n8], which uses
    [abc] whether or not ABC9 is selected, and for [pp3]. *)
Theorem map_luts_by_family (rewrite_filename : string -> string)
    (self : SynthQuickLogicPass) :
  help_mode self = false ->
  In (family self) supported_families ->
  let cmds := invoked (events (body_map_luts rewrite_filename self)) in
  cmds = (if abcOpt self then lut_mapper_commands rewrite_filename self else []) ++
         ["clean"; "opt_lut"] /\
  length (filter lut_mapper cmds) = (if abcOpt self then 1 else 0).
Proof.
  open_pass self. cbn [family abcOpt]. unfold supported_families. cbn [In].
  intros [<-|[<-|[<-|[<-|[]]]]]; cbv zeta;
    unfold body_map_luts, lut_mapper_commands, lutdefs_script, run, run_info;
    cbn [help_mode family abcOpt abc9 lib_path];
    destruct ao, a9; split; vm_compute; reflexivity.
Qed.

Lemma map_luts_by_family_witness :
  invoked (events (body_map_luts id (set_abc9 false (real_pass "qlf_k4n8")))) =
  ["abc -lut 4 "; "clean"; "opt_lut"] /\
  length (filter lut_mapper
                 (invoked (events (body_map_luts id (set_abc9 false (real_pass "qlf_k4n8"))))))
  = 1.
Proof.
  apply (map_luts_by_family id (set_abc9 false (real_pass "qlf_k4n8")) eq_refl).
  vm_compute. auto.
Defined.

(** ** Passes and families *)

Lemma forallb_segment (P : string -> bool) (b : bool) (body : W unit) :
  forallb P (invoked (events body)) = true -> forallb P (segment b body) = true.
Proof. intros H. unfold segment. destruct b; [exact H | reflexivity]. Qed.

Lemma forallb_segments (P : string -> bool) (segments : list (string * list string)) :
  (forall label cmds, In (label, cmds) segments -> forallb P cmds = true) ->
  forallb P (concat (map snd segments)) = true.
Proof.
  induction segments as [|[label cmds] segments IH]; intros H; [reflexivity|].
  cbn [map snd concat]. rewrite forallb_app, (H label cmds) by (left; reflexivity).
  apply IH. intros l c Hin. apply (H l c). right. exact Hin.
Qed.

Lemma family_allows_plain_bodies (rewrite_filename : string -> string)
    (self : SynthQuickLogicPass) :
  help_mode self = false ->
  In (family self) supported_families ->
  let P := family_allows (family self) in
  forallb P (invoked (events (body_begin self))) = true /\
  forallb P (invoked (events (body_map_luts rewrite_filename self))) = true /\
  forallb P (invoked (events (body_map_cells self))) = true /\
  forallb P (invoked (events (body_check self))) = true /\
  (forall b : bool,
      forallb P (segment (b && (family self == "pp3")) (body_iomap self)) = true) /\
  forallb P (invoked (events (body_finalize self))) = true /\
  forallb P (invoked (events (body_blif self))) = true /\
  forallb P (invoked (events (body_edif self))) = true /\
  forallb P (invoked (events (body_verilog self))) = true.
Proof.
  open_pass self. cbn [family]. intros Hfam. cbv zeta.
  each_family Hfam; repeat split; try intros [|]; unfold segment; unfold_bodies;
    split_tests; vm_compute; reflexivity.
Qed.

Lemma family_allows_bram_types (fam : string) :
  forallb (family_allows fam) bram_types_commands = true.
Proof. vm_compute. reflexivity. Qed.

Lemma family_allows_map_bram (self : SynthQuickLogicPass) :
  help_mode self = false ->
  In (family self) supported_families ->
  forallb (family_allows (family self)) (invoked (events (body_map_bram self))) = true.
Proof.
  intros real Hfam. unfold body_map_bram.
  repeat (rewrite ?events_bind, ?invoked_app, ?events_when, ?invoked_if, ?forallb_app).
  rewrite bram_types_chtypes_real by exact real.
  assert (H : forallb (family_allows (family self))
                      (if bramTypes self then bram_types_commands else invoked []) = true)
    by (destruct (bramTypes self); [apply family_allows_bram_types | reflexivity]).
  rewrite H, andb_true_r. clear H. revert real Hfam.
  open_pass self. cbn [family]. intros Hfam.
  each_family Hfam; unfold run, run_info; split_tests; vm_compute; reflexivity.
Qed.

Lemma family_allows_map_dsp (self : SynthQuickLogicPass) :
  help_mode self = false ->
  In (family self) supported_families ->
  In (use_dsp_cfg_params self) use_dsp_cfg_params_values ->
  forallb (family_allows (family self)) (invoked (events (body_map_dsp self))) = true.
Proof.
  open_pass self. cbn [family use_dsp_cfg_params]. intros Hfam Hcfg.
  unfold use_dsp_cfg_params_values in Hcfg. cbn [In] in Hcfg.
  destruct Hcfg as [<-|[<-|[]]];
    each_family Hfam; unfold_bodies; split_tests; vm_compute; reflexivity.
Qed.

Lemma family_allows_fragment_bodies (self : SynthQuickLogicPass) (noDFFArgs : string) :
  help_mode self = false ->
  In (family self) supported_families ->
  In noDFFArgs noDFFArgs_values ->
  let P := family_allows (family self) in
  forallb P (invoked (events (body_prepare self ""))) = true /\
  forallb P (invoked (events (body_coarse self noDFFArgs))) = true /\
  forallb P (invoked (events (body_map_ffram self noDFFArgs))) = true /\
  forallb P (invoked (events (body_map_gates self noDFFArgs))) = true /\
  forallb P (invoked (events (body_map_ffs self noDFFArgs))) = true.
Proof.
  open_pass self. cbn [family]. intros Hfam Hargs. cbv zeta.
  each_value Hargs; each_family Hfam; repeat split; unfold_bodies; split_tests;
    vm_compute; reflexivity.
Qed.

(** X14.  In a real run for a supported family, with whatever flags and
    resume window, a family-specific pass is invoked only for the families
    it belongs to: the [pp3] passes ([tribuf], [muxcover], [pp3_braminit],
    [clkbufmap], [iopadmap], [setundef]) only for [pp3], the memory and
    DSP passes only for the families that have them, [shregmap] only for
    [qlf_k4n8] and [qlf_k6n10f], and [abc9] never for [qlf_k4n8]. *)
Theorem family_specific_passes_stay_in_family
    (rewrite_filename : string -> string) (self : SynthQuickLogicPass)
    (run_from run_to : string) :
  In (family self) supported_families ->
  In (use_dsp_cfg_params self) use_dsp_cfg_params_values ->
  forallb (family_allows (family self))
          (invoked (events (run_script rewrite_filename self run_from run_to))) = true.
Proof.
  intros Hfam Hcfg. unfold run_script. fold (started self run_from run_to).
  set (p := started self run_from run_to).
  assert (real : help_mode p = false) by reflexivity.
  assert (Hfam' : In (family p) supported_families) by exact Hfam.
  assert (Hcfg' : In (use_dsp_cfg_params p) use_dsp_cfg_params_values) by exact Hcfg.
  change (family self) with (family p).
  rewrite script_invoked by exact real.
  apply forallb_segments. intros label cmds Hin.
  pose proof (noDFFArgs_of_value p real) as Hargs.
  destruct (family_allows_plain_bodies rewrite_filename p real Hfam')
    as (H1 & H3 & H4 & H5 & H6 & H7 & H8 & H9 & H10).
  pose proof (family_allows_map_bram p real Hfam') as H2.
  destruct (family_allows_fragment_bodies p _ real Hfam' Hargs)
    as (G1 & G2 & G3 & G4 & G5).
  pose proof (family_allows_map_dsp p real Hfam' Hcfg') as D.
  unfold script_segments in Hin. cbn [In] in Hin.
  repeat (destruct Hin as [Hin | Hin];
          [ injection Hin as <- <-; try (apply H6);
            try (apply forallb_segment); try assumption | ]).
  - destruct (active p "prepare"); [exact G1 | reflexivity].
  - contradiction.
Qed.

Lemma family_specific_passes_stay_in_family_witness :
  forallb (family_allows "pp3")
          (invoked (events (run_script id (real_pass "pp3") "" ""))) = true.
Proof.
  apply (family_specific_passes_stay_in_family id (real_pass "pp3") "" "").
  - vm_compute. auto.
  - vm_compute. auto.
Defined.

(** ** Runs without BRAM inference *)

Lemma no_bram_command_outside_map_bram (rewrite_filename : string -> string)
    (self : SynthQuickLogicPass) (noDFFArgs : string) :
  help_mode self = false ->
  In noDFFArgs noDFFArgs_values ->
  let P := fun cmd => negb (bram_command cmd) in
  forallb P (invoked (events (body_begin self))) = true /\
  forallb P (invoked (events (body_prepare self ""))) = true /\
  forallb P (invoked (events (body_map_dsp self))) = true /\
  forallb P (invoked (events (body_coarse self noDFFArgs))) = true /\
  forallb P (invoked (events (body_map_ffram self noDFFArgs))) = true /\
  forallb P (invoked (events (body_map_gates self noDFFArgs))) = true /\
  forallb P (invoked (events (body_map_ffs self noDFFArgs))) = true /\
  forallb P (invoked (events (body_map_luts rewrite_filename self))) = true /\
  forallb P (invoked (events (body_map_cells self))) = true /\
  forallb P (invoked (events (body_check self))) = true /\
  forallb P (invoked (events (body_iomap self))) = true /\
  forallb P (invoked (events (body_finalize self))) = true /\
  forallb P (invoked (events (body_blif self))) = true /\
  forallb P (invoked (events (body_edif self))) = true /\
  forallb P (invoked (events (body_verilog self))) = true.
Proof.
  open_pass self. intros Hargs. cbv zeta.
  each_value Hargs; repeat split; unfold_bodies; split_tests; vm_compute; reflexivity.
Qed.

(** X15.  In a real run with [-no_bram], or for a family without a BRAM
    path, the [map_bram] checkpoint issues nothing for every resume
    window: the commands of the run are those of the other checkpoints,
    and none of them is a memory pass of [map_bram] or a re-typing of BRAM
    cells, also when [-bram_types] is given. *)
Theorem no_bram_issues_no_bram_command
    (rewrite_filename : string -> string) (self : SynthQuickLogicPass)
    (run_from run_to : string) :
  inferBram self = false \/ ~ In (family self) bram_families ->
  let cmds := invoked (events (run_script rewrite_filename self run_from run_to)) in
  cmds = concat (map snd (outside_map_bram
                            (script_segments rewrite_filename
                                             (started self run_from run_to)))) /\
  forallb (fun cmd => negb (bram_command cmd)) cmds = true.
Proof.
  intros Hoff. cbv zeta. unfold run_script. fold (started self run_from run_to).
  set (p := started self run_from run_to).
  assert (real : help_mode p = false) by reflexivity.
  assert (Hskip : ((family p == "qlf_k6n10") || (family p == "qlf_k6n10f") ||
                   (family p == "pp3")) && inferBram p = false).
  { change (family p) with (family self). change (inferBram p) with (inferBram self).
    destruct Hoff as [-> | Hfam]; [apply andb_false_r|].
    unfold bram_families in Hfam. cbn [In] in Hfam.
    destruct (String.eqb_spec (family self) "qlf_k6n10") as [E|_]; [exfalso; auto|].
    destruct (String.eqb_spec (family self) "qlf_k6n10f") as [E|_]; [exfalso; auto|].
    destruct (String.eqb_spec (family self) "pp3") as [E|_]; [exfalso; auto 6|].
    reflexivity. }
  rewrite script_invoked by exact real.
  assert (Heq : concat (map snd (script_segments rewrite_filename p)) =
                concat (map snd (outside_map_bram (script_segments rewrite_filename p)))).
  { unfold script_segments, outside_map_bram, segment.
    rewrite <- andb_assoc, Hskip, andb_false_r. reflexivity. }
  split; [exact Heq|]. rewrite Heq.
  apply forallb_segments. intros label cmds Hin.
  unfold outside_map_bram in Hin. apply list_elem_of_In, list_elem_of_filter in Hin.
  destruct Hin as [Hne Hin]. apply list_elem_of_In in Hin. cbn [fst] in Hne.
  pose proof (noDFFArgs_of_value p real) as Hargs.
  destruct (no_bram_command_outside_map_bram rewrite_filename p _ real Hargs)
    as (H1 & H2 & H3 & H4 & H5 & H6 & H7 & H8 & H9 & H10 & H11 & H12 & H13 & H14 & H15).
  unfold script_segments in Hin. cbn [In] in Hin.
  repeat (destruct Hin as [Hin | Hin];
          [ injection Hin as <- <-; try congruence;
            try (apply forallb_segment); try assumption | ]).
  - destruct (active p "prepare"); [exact H2 | reflexivity].
  - contradiction.
Qed.

Lemma no_bram_issues_no_bram_command_witness :
  let cmds := invoked (events (run_script id (set_bramTypes true (real_pass "qlf_k4n8"))
                                          "" "")) in
  cmds = concat (map snd (outside_map_bram
                            (script_segments id
                               (started (set_bramTypes true (real_pass "qlf_k4n8")) "" "")))) /\
  forallb (fun cmd => negb (bram_command cmd)) cmds = true.
Proof.
  apply (no_bram_issues_no_bram_command id (set_bramTypes true (real_pass "qlf_k4n8")) "" "").
  right. vm_compute. intros [H|[H|[H|[]]]]; discriminate H.
Defined.

(** ** The preview *)

Lemma labels_app (l1 l2 : list Event) : labels (l1 ++ l2) = labels l1 ++ labels l2.
Proof.
  induction l1 as [|e l1 IH]; simpl; [reflexivity|].
  destruct e; simpl; rewrite IH; reflexivity.
Qed.

Lemma silent_ret {A} (a : A) : silent (ret a).
Proof. reflexivity. Qed.

Lemma silent_bind {A B} (m : W A) (k : A -> W B) :
  silent m -> (forall a, silent (k a)) -> silent (bind m k).
Proof.
  unfold silent. intros Hm Hk. rewrite events_bind, invoked_app, Hm, Hk. reflexivity.
Qed.

Lemma silent_if {A} (b : bool) (m1 m2 : W A) :
  silent m1 -> silent m2 -> silent (if b then m1 else m2).
Proof. destruct b; trivial. Qed.

Lemma silent_for_each {A} (l : list A) (body : A -> W unit) :
  (forall x, silent (body x)) -> silent (for_each l body).
Proof.
  intros H. induction l as [|x l IH]; [reflexivity|].
  cbn [for_each]. apply silent_bind; [apply H | intros _; exact IH].
Qed.

Lemma silent_run_info (self : SynthQuickLogicPass) (cmd info : string) :
  help_mode self = true -> silent (run_info self cmd info).
Proof. intros H. unfold silent, run_info. rewrite H. reflexivity. Qed.

Lemma silent_run (self : SynthQuickLogicPass) (cmd : string) :
  help_mode self = true -> silent (run self cmd).
Proof. apply silent_run_info. Qed.

Lemma silent_check_label (self : SynthQuickLogicPass) (label info : string) :
  silent (check_label self label info).
Proof. unfold silent, check_label. destruct (help_mode self); reflexivity. Qed.

Lemma unlabelled_ret {A} (a : A) : unlabelled (ret a).
Proof. reflexivity. Qed.

Lemma unlabelled_bind {A B} (m : W A) (k : A -> W B) :
  unlabelled m -> (forall a, unlabelled (k a)) -> unlabelled (bind m k).
Proof.
  unfold unlabelled. intros Hm Hk. rewrite events_bind, labels_app, Hm, Hk. reflexivity.
Qed.

Lemma unlabelled_if {A} (b : bool) (m1 m2 : W A) :
  unlabelled m1 -> unlabelled m2 -> unlabelled (if b then m1 else m2).
Proof. destruct b; trivial. Qed.

Lemma unlabelled_for_each {A} (l : list A) (body : A -> W unit) :
  (forall x, unlabelled (body x)) -> unlabelled (for_each l body).
Proof.
  intros H. induction l as [|x l IH]; [reflexivity|].
  cbn [for_each]. apply unlabelled_bind; [apply H | intros _; exact IH].
Qed.

Lemma unlabelled_run_info (self : SynthQuickLogicPass) (cmd info : string) :
  unlabelled (run_info self cmd info).
Proof. unfold unlabelled, run_info. destruct (help_mode self); reflexivity. Qed.

Lemma unlabelled_run (self : SynthQuickLogicPass) (cmd : string) :
  unlabelled (run self cmd).
Proof. apply unlabelled_run_info. Qed.

Ltac quiet_step :=
  lazymatch goal with
  | |- silent (bind _ _) => apply silent_bind; [|intros ?]
  | |- silent (run _ _) => apply silent_run; assumption
  | |- silent (run_info _ _ _) => apply silent_run_info; assumption
  | |- silent (check_label _ _ _) => apply silent_check_label
  | |- silent (ret _) => apply silent_ret
  | |- silent (for_each _ _) => apply silent_for_each; intros ?
  | |- silent (if _ then _ else _) => apply silent_if
  | |- unlabelled (bind _ _) => apply unlabelled_bind; [|intros ?]
  | |- unlabelled (run _ _) => apply unlabelled_run
  | |- unlabelled (run_info _ _ _) => apply unlabelled_run_info
  | |- unlabelled (ret _) => apply unlabelled_ret
  | |- unlabelled (for_each _ _) => apply unlabelled_for_each; intros ?
  | |- unlabelled (if _ then _ else _) => apply unlabelled_if
  end.

Ltac quiet_body :=
  unfold body_begin, body_prepare, body_map_dsp, map_dsp_k6n10, map_dsp_k6n10f,
    body_coarse, body_map_bram, bram_types_chtypes, body_map_ffram, body_map_gates,
    body_map_ffs, body_map_luts, body_map_cells, body_check, body_iomap, body_finalize,
    body_blif, body_edif, body_verilog;
  cbv zeta; repeat quiet_step.

(** No checkpoint body writes a label, in either mode. *)
Lemma bodies_unlabelled (rewrite_filename : string -> string) (self : SynthQuickLogicPass)
    (noDFFArgs : string) :
  unlabelled (body_begin self) /\ unlabelled (body_prepare self noDFFArgs) /\
  unlabelled (body_map_dsp self) /\ unlabelled (body_coarse self noDFFArgs) /\
  unlabelled (body_map_bram self) /\ unlabelled (body_map_ffram self noDFFArgs) /\
  unlabelled (body_map_gates self noDFFArgs) /\ unlabelled (body_map_ffs self noDFFArgs) /\
  unlabelled (body_map_luts rewrite_filename self) /\ unlabelled (body_map_cells self) /\
  unlabelled (body_check self) /\ unlabelled (body_iomap self) /\
  unlabelled (body_finalize self) /\ unlabelled (body_blif self) /\
  unlabelled (body_edif self) /\ unlabelled (body_verilog self).
Proof. repeat split; quiet_body. Qed.

Lemma check_label_help (self : SynthQuickLogicPass) (label info : string) :
  help_mode self = true -> check_label self label info = (true, [HelpLabel label info]).
Proof. intros H. unfold check_label. rewrite H. reflexivity. Qed.

(** X16.  In preview mode, whatever flags the pass object holds, the
    script visits all sixteen checkpoints, in order, hands no command to
    the pass dispatcher, and leaves the placeholder [<family>] in the
    family member. *)
Theorem preview_visits_every_checkpoint (rewrite_filename : string -> string)
    (self : SynthQuickLogicPass) :
  help_mode self = true ->
  labels (events (script rewrite_filename self)) = checkpoints /\
  invoked (events (script rewrite_filename self)) = [] /\
  family (value (script rewrite_filename self)) = "<family>".
Proof.
  intros Hhelp. unfold script. rewrite Hhelp.
  set (p := set_family "<family>" self).
  assert (Hp : help_mode p = true) by exact Hhelp.
  split; [|split].
  - pose proof (fun args => bodies_unlabelled rewrite_filename p args) as U.
    repeat (rewrite ?events_bind, ?value_bind, ?check_label_help by exact Hp;
            cbn beta iota zeta delta [value events ret fst snd]).
    change (@snd ?A (list Event)) with (@events A).
    change (@fst ?A (list Event)) with (@value A).
    rewrite !labels_app.
    destruct (U "") as (U1 & U2 & U3 & _ & U5 & _ & _ & _ & U9 & U10 & U11 & U12 & U13 &
                        U14 & U15 & U16).
    destruct (U (value (body_prepare p ""))) as (_ & _ & _ & U4 & _ & U6 & U7 & U8 & _).
    unfold unlabelled in *. clear U.
    rewrite Hp, ?orb_true_r. cbn [orb andb].
    destruct (inferBram p);
      rewrite ?U1, ?U2, ?U3, ?U4, ?U5, ?U6, ?U7, ?U8, ?U9, ?U10, ?U11, ?U12, ?U13, ?U14,
        ?U15, ?U16; reflexivity.
  - match goal with |- invoked (events ?m) = [] => change (silent m) end.
    quiet_body.
  - repeat (rewrite value_bind; cbv beta). reflexivity.
Qed.

Lemma preview_visits_every_checkpoint_witness :
  labels (events (script id (set_help_mode true (clear_flags new_pass)))) = checkpoints /\
  invoked (events (script id (set_help_mode true (clear_flags new_pass)))) = [] /\
  family (value (script id (set_help_mode true (clear_flags new_pass)))) = "<family>".
Proof.
  exact (preview_visits_every_checkpoint id (set_help_mode true (clear_flags new_pass))
           eq_refl).
Defined.

(** ** Options without effect for the default family *)

Lemma k4n8_bodies_ignore_options (rewrite_filename : string -> string)
    (self : SynthQuickLogicPass) (a t b n : bool) (c : string) :
  help_mode self = false ->
  family self = "qlf_k4n8" ->
  let q := with_dsp_bram_abc9 a t b n c self in
  body_begin q = body_begin self /\
  (forall args, body_prepare q args = body_prepare self args) /\
  body_map_dsp q = body_map_dsp self /\
  (forall args, body_coarse q args = body_coarse self args) /\
  (forall args, body_map_ffram q args = body_map_ffram self args) /\
  (forall args, body_map_gates q args = body_map_gates self args) /\
  (forall args, body_map_ffs q args = body_map_ffs self args) /\
  body_map_luts rewrite_filename q = body_map_luts rewrite_filename self /\
  body_check q = body_check self /\
  body_finalize q = body_finalize self /\
  body_blif q = body_blif self /\
  body_edif q = body_edif self /\
  body_verilog q = body_verilog self.
Proof.
  open_pass self. cbn [family]. intros ->. cbv zeta.
  repeat split; try intros args; reflexivity.
Qed.

(** X17.  For [qlf_k4n8], the default family, the options [-no_dsp],
    [-use_dsp_cfg_params], [-no_bram], [-bram_types] and [-no_abc9] change
    no command of a real run, whatever the other flags and the resume
    window are. *)
Theorem k4n8_ignores_dsp_bram_abc9_options
    (rewrite_filename : string -> string) (self : SynthQuickLogicPass)
    (run_from run_to : string) (a t b n : bool) (c : string) :
  family self = "qlf_k4n8" ->
  invoked (events (run_script rewrite_filename (with_dsp_bram_abc9 a t b n c self)
                              run_from run_to)) =
  invoked (events (run_script rewrite_filename self run_from run_to)).
Proof.
  intros Hfam. unfold run_script.
  fold (started (with_dsp_bram_abc9 a t b n c self) run_from run_to)
       (started self run_from run_to).
  change (started (with_dsp_bram_abc9 a t b n c self) run_from run_to)
    with (with_dsp_bram_abc9 a t b n c (started self run_from run_to)).
  set (p := started self run_from run_to).
  assert (real : help_mode p = false) by reflexivity.
  assert (Hp : family p = "qlf_k4n8") by exact Hfam.
  rewrite !script_invoked by reflexivity.
  destruct (k4n8_bodies_ignore_options rewrite_filename p a t b n c real Hp)
    as (B1 & B2 & B3 & B4 & B5 & B6 & B7 & B8 & B9 & B10 & B11 & B12 & B13).
  cbv zeta in *.
  unfold script_segments, segment, noDFFArgs_of, active.
  cbn [map snd concat].
  change (active_run_from (with_dsp_bram_abc9 a t b n c p)) with (active_run_from p).
  change (active_run_to (with_dsp_bram_abc9 a t b n c p)) with (active_run_to p).
  change (family (with_dsp_bram_abc9 a t b n c p)) with (family p).
  change (edif_file (with_dsp_bram_abc9 a t b n c p)) with (edif_file p).
  rewrite B1, B2, B3, B4, B5, B6, B7, B8, B9, B10, B11, B12, B13, Hp.
  cbn [String.eqb Ascii.eqb Bool.eqb orb andb].
  rewrite !andb_false_r. reflexivity.
Qed.

Lemma k4n8_ignores_dsp_bram_abc9_options_witness :
  invoked (events (run_script id
                     (with_dsp_bram_abc9 true true false false " -use_dsp_cfg_params"
                                         (real_pass "qlf_k4n8")) "" "")) =
  invoked (events (run_script id (real_pass "qlf_k4n8") "" "")).
Proof.
  exact (k4n8_ignores_dsp_bram_abc9_options id (real_pass "qlf_k4n8") "" ""
           true true false false " -use_dsp_cfg_params" eq_refl).
Defined.

(** ** Libraries and flip-flops by family *)

Lemma string_append_assoc (a b c : string) : (a +:+ b) +:+ c = a +:+ (b +:+ c).
Proof.
  induction a as [|x a IH]; [reflexivity|].
  change (String x ((a +:+ b) +:+ c) = String x (a +:+ (b +:+ c))).
  rewrite IH. reflexivity.
Qed.

(** X18.  In a real run [begin] reads the common cell library and the
    cell library of the family; for [qlf_k6n10f] it also reads the DSP and
    BRAM simulation models, whether or not DSP or BRAM inference is
    disabled, and the BRAM variants model exactly when [-bram_types] is
    given.  It then resolves the hierarchy with the top module option. *)
Theorem begin_reads_family_libraries (self : SynthQuickLogicPass) :
  help_mode self = false ->
  invoked (events (body_begin self)) =
  [ "read_verilog -lib -specify -nomem2reg " +:+ lib_path self +:+ "common/cells_sim.v" +:+
    join (map (fun file => " " +:+ lib_path self +:+ family self +:+ "/" +:+ file)
              (sim_files self));
    "hierarchy -check " +:+ top_opt self ].
Proof.
  open_pass self. unfold body_begin, sim_files, run, run_info.
  cbn [help_mode family bramTypes lib_path top_opt].
  destruct (fam == "qlf_k6n10f"); [destruct bt|];
    cbn [map join]; rewrite ?string_append_assoc; reflexivity.
Qed.

Lemma begin_reads_family_libraries_witness :
  invoked (events (body_begin (set_nodsp true (real_pass "qlf_k6n10f")))) =
  [ "read_verilog -lib -specify -nomem2reg +/quicklogic/common/cells_sim.v" +:+
    " +/quicklogic/qlf_k6n10f/cells_sim.v +/quicklogic/qlf_k6n10f/dsp_sim.v" +:+
    " +/quicklogic/qlf_k6n10f/brams_sim.v";
    "hierarchy -check -auto-top" ].
Proof.
  exact (begin_reads_family_libraries (set_nodsp true (real_pass "qlf_k6n10f")) eq_refl).
Defined.

(** X19.  In a real run for a supported family [map_ffs] legalizes the
    flip-flops exactly once; the synchronous set/reset cell [$_SDFFE_] is
    legal only for [qlf_k6n10f] without [-nosdff], and shift registers are
    mapped only for [qlf_k4n8] and [qlf_k6n10f]. *)
Theorem map_ffs_legalizes_once (self : SynthQuickLogicPass) (noDFFArgs : string) :
  help_mode self = false ->
  In (family self) supported_families ->
  In noDFFArgs noDFFArgs_values ->
  let cmds := invoked (events (body_map_ffs self noDFFArgs)) in
  length (filter legalizes cmds) = 1 /\
  existsb (contains "$_SDFFE_") (filter legalizes cmds) =
    (family self == "qlf_k6n10f") && negb (nosdff self) /\
  existsb maps_shift_registers cmds =
    (family self == "qlf_k4n8") || (family self == "qlf_k6n10f").
Proof.
  open_pass self. cbn [family nosdff]. intros Hfam Hargs. cbv zeta.
  each_value Hargs; each_family Hfam; unfold body_map_ffs, run, run_info;
    cbn [help_mode family nosdff noffmap lib_path];
    destruct nf, ns; repeat split; vm_compute; reflexivity.
Qed.

Lemma map_ffs_legalizes_once_witness :
  length (filter legalizes
                 (invoked (events (body_map_ffs (real_pass "qlf_k6n10f") "")))) = 1 /\
  existsb (contains "$_SDFFE_")
          (filter legalizes (invoked (events (body_map_ffs (real_pass "qlf_k6n10f") "")))) =
    ("qlf_k6n10f" == "qlf_k6n10f") && negb false /\
  existsb maps_shift_registers (invoked (events (body_map_ffs (real_pass "qlf_k6n10f") ""))) =
    ("qlf_k6n10f" == "qlf_k4n8") || ("qlf_k6n10f" == "qlf_k6n10f").
Proof.
  apply (map_ffs_legalizes_once (real_pass "qlf_k6n10f") "" eq_refl).
  - vm_compute. auto.
  - vm_compute. auto.
Defined.
